(** * UKHASnet decoder: bit slicer, frame synchronisation, packet assembler

    A shallow embedding of [UKHASnet-decoder.c].  The C globals become the
    fields of one [State] record that is threaded through [processByte] and
    [processBit]; [stdout] becomes the list of events [out]; the fixed-width
    integer types are [Z] with the wrap-around of every store written out.
    An access outside [buffer] is undefined behaviour in C: the
    embedding returns [None] there, so that a result [Some _] also says
    that no such access happened. *)

From Stdlib Require Import ZArith Lia Bool.
From stdpp Require Import base option list.

Local Open Scope Z_scope.

(** ** Fixed-width stores *)

(** Store into a [uint8_t]. *)
Definition to_u8 (x : Z) : Z := x mod 2 ^ 8.

(** Store into a [uint16_t]. *)
Definition to_u16 (x : Z) : Z := x mod 2 ^ 16.

(** Store into an [int16_t] (two's complement). *)
Definition to_i16 (x : Z) : Z := (x + 2 ^ 15) mod 2 ^ 16 - 2 ^ 15.

(** ** Constants *)

Definition BIT_RATE : Z := 2000.
Definition CRC_START : Z := 0x1D0F.
Definition MAX_PACKET_SIZE : Z := 255.
Definition SYNC_WORD : Z := 0x2DAA.
Definition PREAMBLE : Z := 0xAAAA.

(** ** CRC16 engine *)

(** One turn of the [for] loop of [crc_xmodem_update]: the shift and the
    exclusive or are computed on [int], the assignment to the [uint16_t]
    variable truncates. *)
Definition crc_round (crc : Z) : Z :=
  if negb (Z.land crc 0x8000 =? 0)
  then to_u16 (Z.lxor (Z.shiftl crc 1) 0x1021)
  else to_u16 (Z.shiftl crc 1).

(** The loop [for (int i=0; i<8; i++)], by its number of remaining turns. *)
Fixpoint crc_loop (turns : nat) (crc : Z) : Z :=
  match turns with
  | O => crc
  | S n => crc_loop n (crc_round crc)
  end.

Definition crc_xmodem_update (crc data : Z) : Z :=
  let crc := to_u16 (Z.lxor crc (Z.shiftl data 8)) in
  crc_loop 8 crc.

(** ** Decoder state *)

(** What the program prints.  The time tag of [printTime] is the wall
    clock and is left out. *)
Inductive Event : Type :=
  | EvSync (sync : Z)                     (* "Sync: %04X" *)
  | EvParsing (n : Z)                     (* "Parsing %d bytes" *)
  | EvSkip (n : Z)                        (* "Length: %d > %d, skip" *)
  | EvPacket (payload : list Z)           (* "PACKET " and the payload *)
  | EvCrcMismatch (read computed : Z).    (* "CRC mismatch: ..." *)

Record State : Type := mkState {
  verbose : bool;
  syncBuffer : Z;
  byte : Z;
  buffer : list Z;
  packetSync : bool;
  len : Z;
  offset : Z;
  computedCrc : Z;
  readCrc : Z;
  skipBit : Z;
  out : list Event
}.

Definition set_syncBuffer (s : State) (v : Z) : State :=
  mkState (verbose s) v (byte s) (buffer s) (packetSync s) (len s) (offset s)
          (computedCrc s) (readCrc s) (skipBit s) (out s).
Definition set_byte (s : State) (v : Z) : State :=
  mkState (verbose s) (syncBuffer s) v (buffer s) (packetSync s) (len s) (offset s)
          (computedCrc s) (readCrc s) (skipBit s) (out s).
Definition set_buffer (s : State) (v : list Z) : State :=
  mkState (verbose s) (syncBuffer s) (byte s) v (packetSync s) (len s) (offset s)
          (computedCrc s) (readCrc s) (skipBit s) (out s).
Definition set_packetSync (s : State) (v : bool) : State :=
  mkState (verbose s) (syncBuffer s) (byte s) (buffer s) v (len s) (offset s)
          (computedCrc s) (readCrc s) (skipBit s) (out s).
Definition set_len (s : State) (v : Z) : State :=
  mkState (verbose s) (syncBuffer s) (byte s) (buffer s) (packetSync s) v (offset s)
          (computedCrc s) (readCrc s) (skipBit s) (out s).
Definition set_offset (s : State) (v : Z) : State :=
  mkState (verbose s) (syncBuffer s) (byte s) (buffer s) (packetSync s) (len s) v
          (computedCrc s) (readCrc s) (skipBit s) (out s).
Definition set_computedCrc (s : State) (v : Z) : State :=
  mkState (verbose s) (syncBuffer s) (byte s) (buffer s) (packetSync s) (len s) (offset s)
          v (readCrc s) (skipBit s) (out s).
Definition set_readCrc (s : State) (v : Z) : State :=
  mkState (verbose s) (syncBuffer s) (byte s) (buffer s) (packetSync s) (len s) (offset s)
          (computedCrc s) v (skipBit s) (out s).
Definition set_skipBit (s : State) (v : Z) : State :=
  mkState (verbose s) (syncBuffer s) (byte s) (buffer s) (packetSync s) (len s) (offset s)
          (computedCrc s) (readCrc s) v (out s).

(** [printf]: one more event on the output. *)
Definition print (s : State) (e : Event) : State :=
  mkState (verbose s) (syncBuffer s) (byte s) (buffer s) (packetSync s) (len s) (offset s)
          (computedCrc s) (readCrc s) (skipBit s) (out s ++ [e]).

(** The globals as the program starts: [verbose] as the command line
    sets it, the others as their initialisers say (zero where there is
    none). *)
Definition initial (v : bool) : State :=
  mkState v 0 0 (replicate (Z.to_nat MAX_PACKET_SIZE) 0) false (-1) 0 CRC_START 0 8 [].

(** [buffer[i] = v]; [None] outside the array. *)
Definition buffer_store (s : State) (i v : Z) : option State :=
  if (0 <=? i) && (i <? Z.of_nat (length (buffer s)))
  then Some (set_buffer s (<[Z.to_nat i := v]> (buffer s)))
  else None.

(** The bytes [buffer[0]], ..., [buffer[n-1]] that the [putchar] loop
    reads; [None] when the loop would leave the array. *)
Definition buffer_prefix (s : State) (n : Z) : option (list Z) :=
  if n <=? Z.of_nat (length (buffer s))
  then Some (take (Z.to_nat n) (buffer s))
  else None.

(** ** Packet assembler *)

Definition processByte (s : State) (b : Z) : option (State * bool) :=
  if len s =? -1 then
    let s := set_len s b in
    let s := set_computedCrc s (crc_xmodem_update (computedCrc s) b) in
    if len s <=? MAX_PACKET_SIZE - 1 then
      let s := if verbose s then print s (EvParsing (len s)) else s in
      Some (s, true)
    else
      let s := if verbose s then print s (EvSkip (len s)) else s in
      Some (s, false)
  else if offset s <? len s then
    s' ← buffer_store s (offset s) b;
    let s := set_offset s' (offset s' + 1) in
    let s := set_computedCrc s (crc_xmodem_update (computedCrc s) b) in
    Some (s, true)
  else if offset s =? len s then
    let s := set_readCrc s (to_u16 (Z.lor (readCrc s) (Z.shiftl b 8))) in
    let s := set_offset s (offset s + 1) in
    Some (s, true)
  else if offset s =? len s + 1 then
    let s := set_readCrc s (to_u16 (Z.lor (readCrc s) b)) in
    let s := set_readCrc s (to_u16 (0xffff - readCrc s)) in
    if computedCrc s =? readCrc s then
      payload ← buffer_prefix s (len s);
      Some (print s (EvPacket payload), false)
    else
      let s := if verbose s then print s (EvCrcMismatch (readCrc s) (computedCrc s)) else s in
      Some (s, false)
  else Some (s, false).

(** ** Frame synchronisation *)

Definition processBit (s : State) (bit : bool) : option State :=
  if packetSync s then
    let s := set_byte s (to_u8 (Z.lor (Z.shiftl (byte s) 1) (Z.b2z bit))) in
    let s := set_skipBit s (skipBit s - 1) in
    if skipBit s <? 1 then
      let s := set_skipBit s 8 in
      '(s, continue) ← processByte s (byte s);
      Some (set_packetSync s continue)
    else Some s
  else
    let s := set_syncBuffer s (to_u16 (Z.lor (Z.shiftl (syncBuffer s) 1) (Z.b2z bit))) in
    let s := set_packetSync s
               ((syncBuffer s =? SYNC_WORD) || (syncBuffer s =? 0xffff - SYNC_WORD)) in
    if packetSync s then
      let s := if verbose s then print s (EvSync (syncBuffer s)) else s in
      let s := set_skipBit s 8 in
      let s := set_len s (-1) in
      let s := set_offset s 0 in
      let s := set_computedCrc s 0x1D0F in
      let s := set_readCrc s 0 in
      Some s
    else Some s.

(** The decoder on a bitstream: [processBit] on each bit in turn. *)
Fixpoint run (s : State) (bits : list bool) : option State :=
  match bits with
  | [] => Some s
  | bit :: rest => s' ← processBit s bit; run s' rest
  end.

(** The payloads of the packets printed so far, oldest first. *)
Fixpoint packets (evs : list Event) : list (list Z) :=
  match evs with
  | [] => []
  | EvPacket p :: rest => p :: packets rest
  | _ :: rest => packets rest
  end.

(** ** The packet format on the air

    The transmitter is not part of the program.  These definitions spell
    out the bitstream of a packet as the radio sends it: bytes most
    significant bit first, the sync word, the length byte, the payload and
    the complemented CRC16 of length and payload, high byte first. *)

Definition bits_of_byte (b : Z) : list bool :=
  [Z.testbit b 7; Z.testbit b 6; Z.testbit b 5; Z.testbit b 4;
   Z.testbit b 3; Z.testbit b 2; Z.testbit b 1; Z.testbit b 0].

Definition bits_of_bytes (bs : list Z) : list bool :=
  concat (map bits_of_byte bs).

Definition sync_bits : list bool :=
  bits_of_bytes [Z.shiftr SYNC_WORD 8; Z.land SYNC_WORD 0xFF].

(** The running CRC16 over a sequence of bytes, from the seed. *)
Definition crc_of (bs : list Z) : Z :=
  fold_left crc_xmodem_update bs CRC_START.

(** The two CRC bytes sent after the payload [P]. *)
Definition crc_bytes (P : list Z) : list Z :=
  let sent := 0xFFFF - crc_of (Z.of_nat (length P) :: P) in
  [Z.shiftr sent 8; Z.land sent 0xFF].

Definition frame_bits (P : list Z) : list bool :=
  bits_of_bytes (Z.of_nat (length P) :: P) ++ bits_of_bytes (crc_bytes P).

Definition encode (P : list Z) : list bool :=
  sync_bits ++ frame_bits P.

(** [bits] with the bit at position [i] inverted. *)
Fixpoint flip_at (i : nat) (bits : list bool) : list bool :=
  match bits, i with
  | [], _ => []
  | b :: rest, O => negb b :: rest
  | b :: rest, S j => b :: flip_at j rest
  end.

(** The sync register after one more bit, and the comparison made on it,
    as [processBit] writes them in the Searching state. *)
Definition sync_shift (reg : Z) (bit : bool) : Z :=
  to_u16 (Z.lor (Z.shiftl reg 1) (Z.b2z bit)).

Definition is_sync (reg : Z) : bool :=
  (reg =? SYNC_WORD) || (reg =? 0xffff - SYNC_WORD).

(** Position of the first bit of [bits] at which a register that holds
    [reg] matches. *)
Fixpoint first_lock (reg : Z) (bits : list bool) : option nat :=
  match bits with
  | [] => None
  | bit :: rest =>
      let reg := sync_shift reg bit in
      if is_sync reg then Some O else S <$> first_lock reg rest
  end.

(** The packet in progress is in the state the lock leaves it in. *)
Definition packet_reset (s : State) : Prop :=
  len s = -1 /\ offset s = 0 /\ computedCrc s = 0x1D0F /\ readCrc s = 0.

(** A state with the diagnostics taken away: [verbose] off and only the
    packets left on the output. *)
Definition erase (s : State) : State :=
  mkState false (syncBuffer s) (byte s) (buffer s) (packetSync s) (len s) (offset s)
          (computedCrc s) (readCrc s) (skipBit s) (EvPacket <$> packets (out s)).

Definition set_verbose (s : State) (v : bool) : State :=
  mkState v (syncBuffer s) (byte s) (buffer s) (packetSync s) (len s) (offset s)
          (computedCrc s) (readCrc s) (skipBit s) (out s).

(** ** CRC16 as the specification words it *)

(** The update with every intermediate result reduced modulo 2^16 and the
    high bit read as bit 15. *)
Definition reference_round (crc : Z) : Z :=
  if Z.testbit crc 15
  then (Z.lxor ((crc * 2) mod 2 ^ 16) 0x1021) mod 2 ^ 16
  else (crc * 2) mod 2 ^ 16.

Definition crc_reference (crc b : Z) : Z :=
  Nat.iter 8 reference_round ((Z.lxor crc ((b * 2 ^ 8) mod 2 ^ 16)) mod 2 ^ 16).

(** ** Bit slicer *)

(** The global [threshold] and the local [skipSamples] of the sample loop
    of [main]. *)
Record Slicer : Type := mkSlicer {
  threshold : Z;
  skipSamples : Z
}.

(** The slicer as the loop is entered, for the given [downSamples]. *)
Definition slicer_start (downSamples : Z) : Slicer := mkSlicer 0 downSamples.

(** One turn of the sample loop up to the call of [processBit]: the new
    slicer and the bit decided, if one is.  The division of C truncates
    ([Z.quot]); the store into the [int16_t] [threshold] wraps. *)
Definition sliceSample (downSamples : Z) (sl : Slicer) (sample : Z)
  : Slicer * option bool :=
  let threshold :=
    to_i16 ((sample + (8 * downSamples - 1) * threshold sl) ÷ (8 * downSamples)) in
  let skipSamples := skipSamples sl - 1 in
  if skipSamples <? 1 then
    let skipSamples := downSamples in
    let bit := sample >? threshold in
    (mkSlicer threshold skipSamples, Some bit)
  else (mkSlicer threshold skipSamples, None).

(** The sample loop on a list of samples: what each sample decides. *)
Fixpoint slice (downSamples : Z) (sl : Slicer) (samples : list Z)
  : list (option bool) :=
  match samples with
  | [] => []
  | sample :: rest =>
      let '(sl', bit) := sliceSample downSamples sl sample in
      bit :: slice downSamples sl' rest
  end.

(** One turn of the sample loop of [main]: the slicer, then [processBit]
    on the bit when one is decided. *)
Definition processSample (downSamples : Z) (st : Slicer * State) (sample : Z)
  : option (Slicer * State) :=
  let '(sl, bit) := sliceSample downSamples st.1 sample in
  match bit with
  | Some bit => s ← processBit st.2 bit; Some (sl, s)
  | None => Some (sl, st.2)
  end.

(** The sample loop of [main] on a list of samples. *)
Fixpoint processSamples (downSamples : Z) (st : Slicer * State) (samples : list Z)
  : option (Slicer * State) :=
  match samples with
  | [] => Some st
  | sample :: rest =>
      st' ← processSample downSamples st sample;
      processSamples downSamples st' rest
  end.

(** The slicer after a list of samples. *)
Definition slicer_after (downSamples : Z) (sl : Slicer) (samples : list Z) : Slicer :=
  fold_left (fun sl sample => (sliceSample downSamples sl sample).1) samples sl.

(** The bits decided, out of what each sample decides. *)
Definition decided (outs : list (option bool)) : list bool := omap id outs.

(** ** Command line and sample input *)

(** The initial value of the global [sampleRate]. *)
Definition default_sampleRate : Z := 64000.

(** Option [-s] of [main]: the value [arg] of [atoi] is stored into the
    [uint16_t] [sampleRate] and checked; [None] is the [return 1]. *)
Definition set_sampleRate (arg : Z) : option Z :=
  let sampleRate := to_u16 arg in
  if (sampleRate <? 2 * BIT_RATE) || negb (Z.rem sampleRate BIT_RATE =? 0)
  then None
  else Some sampleRate.

(** [int downSamples = sampleRate / BIT_RATE]. *)
Definition downSamples_of (sampleRate : Z) : Z := sampleRate ÷ BIT_RATE.

(** One sample out of two bytes of input, low byte first:
    [(int16_t) (fgetc(stdin) | fgetc(stdin) << 8)], for two bytes that are
    there. *)
Definition read_sample (lo hi : Z) : Z := to_i16 (Z.lor lo (Z.shiftl hi 8)).

(** ** A square wave

    The demodulator is not part of the program.  A bitstream as samples:
    [D] samples of amplitude [A] for a bit 1 and of amplitude [- A] for a
    bit 0. *)
Definition modulate (D A : Z) (bits : list bool) : list Z :=
  bits ≫= fun bit : bool => replicate (Z.to_nat D) (if bit then A else - A).

(** A value that fits an [int16_t]. *)
Definition int16 (x : Z) : Prop := - 2 ^ 15 <= x < 2 ^ 15.

(** A value that fits a [uint8_t]. *)
Definition u8 (x : Z) : Prop := 0 <= x < 2 ^ 8.

(** One byte of the preamble [PREAMBLE], 0xAA. *)
Definition PREAMBLE_BYTE : Z := Z.land PREAMBLE 0xFF.

(** ** Vocabulary of the proofs *)

(** One more bit in the byte register, as the Locked branch of
    [processBit] writes it. *)
Definition pack (x : Z) (bit : bool) : Z :=
  to_u8 (Z.lor (Z.shiftl x 1) (Z.b2z bit)).

(** The byte that the Locked branch packs from a run of bits, from an
    empty register. *)
Definition byte_of_bits (bits : list bool) : Z := fold_left pack bits 0.

(** What the Locked branch of [processBit] does on the eighth bit of a
    byte [b]: the countdown is reloaded, the byte goes to [processByte] and
    the flag it returns becomes [packetSync]. *)
Definition feedByte (s : State) (b : Z) : option State :=
  '(s', continue) ← processByte (set_skipBit (set_byte s b) 8) b;
  Some (set_packetSync s' continue).

(** The state right after a lock: Locked, a whole byte to come, the packet
    reset, the array of [MAX_PACKET_SIZE] bytes. *)
Definition fresh_lock (s : State) : Prop :=
  packetSync s = true /\ skipBit s = 8 /\ packet_reset s /\
  length (buffer s) = Z.to_nat MAX_PACKET_SIZE.

(** Locked between two bytes of a packet of length [n], the payload bytes
    [got] received so far. *)
Definition in_data (s : State) (n : Z) (got : list Z) : Prop :=
  packetSync s = true /\ skipBit s = 8 /\ len s = n /\
  offset s = Z.of_nat (length got) /\ take (length got) (buffer s) = got /\
  computedCrc s = crc_of (n :: got) /\ readCrc s = 0 /\
  length (buffer s) = Z.to_nat MAX_PACKET_SIZE.

(** What a packet attempt leaves alone: the flag [verbose], the sync
    register and the size of the array. *)
Definition carried (s s' : State) : Prop :=
  verbose s' = verbose s /\ syncBuffer s' = syncBuffer s /\
  length (buffer s') = length (buffer s).

(** Where the assembler stands between two bytes: no length read yet and
    the offset 0, or a length of at most 254 and an offset between 0 and
    one more than the length. *)
Definition assembling (s : State) : Prop :=
  (len s = -1 /\ offset s = 0) \/
  (0 <= len s <= MAX_PACKET_SIZE - 1 /\ 0 <= offset s <= len s + 1).

(** The invariant behind the array accesses: the array keeps its size and,
    while Locked, the assembler stands as above. *)
Definition safe (s : State) : Prop :=
  length (buffer s) = Z.to_nat MAX_PACKET_SIZE /\
  (packetSync s = true -> assembling s).

(** Locked between the two CRC bytes of a packet of length [n]: the
    payload [got] complete, the first CRC byte [hi] received. *)
Definition crc_wait (s : State) (n : Z) (got : list Z) (hi : Z) : Prop :=
  packetSync s = true /\ skipBit s = 8 /\ len s = n /\ offset s = n + 1 /\
  Z.of_nat (length got) = n /\ take (length got) (buffer s) = got /\
  computedCrc s = crc_of (n :: got) /\ readCrc s = 256 * hi /\
  length (buffer s) = Z.to_nat MAX_PACKET_SIZE.

(** Locked between two bytes, with the bits [seen] consumed so far: right
    after the lock, or with the end of [seen] the bytes of the packet
    attempt received since the lock. *)
Definition at_byte (seen : list bool) (s : State) : Prop :=
  fresh_lock s \/
  (exists n got pre,
     in_data s n got /\ Z.of_nat (length got) <= n <= MAX_PACKET_SIZE - 1 /\
     Forall u8 got /\ seen = pre ++ bits_of_bytes (n :: got)) \/
  (exists n got hi pre,
     crc_wait s n got hi /\ n <= MAX_PACKET_SIZE - 1 /\ u8 hi /\
     Forall u8 got /\ seen = pre ++ bits_of_bytes (n :: got ++ [hi])).

(** The state [part] bits into a byte, from the state [s] between two
    bytes. *)
Definition within_byte (s : State) (part : list bool) : State :=
  set_skipBit (set_byte s (fold_left pack part (byte s)))
              (8 - Z.of_nat (length part)).

(** Every packet printed is in the bits consumed, as the bits of its
    length, its bytes and the CRC bytes that go with them. *)
Definition sound_output (seen : list bool) (s : State) : Prop :=
  forall P, P ∈ packets (out s) ->
    (length P <= 254)%nat /\ Forall u8 P /\
    exists pre post, seen = pre ++ frame_bits P ++ post.

(** The invariant that relates a state to the bits consumed. *)
Definition decoding (seen : list bool) (s : State) : Prop :=
  sound_output seen s /\
  length (buffer s) = Z.to_nat MAX_PACKET_SIZE /\
  (packetSync s = true ->
   exists before part sb,
     seen = before ++ part /\ (length part < 8)%nat /\
     at_byte before sb /\ s = within_byte sb part).

(** ** States used as examples *)

(** Locked, the seven first bits of the second CRC byte of the packet
    "ABC" received. *)
Definition last_byte_state : State :=
  mkState false SYNC_WORD 0x53 ([0x41; 0x42; 0x43] ++ replicate 252 0)
          true 3 4 0xAC58 0x5300 1 [].

(** Right after a lock on the sync word at the start of the program. *)
Definition first_byte_state : State :=
  mkState false SYNC_WORD 0 (replicate (Z.to_nat MAX_PACKET_SIZE) 0)
          true (-1) 0 CRC_START 0 8 [].

(** Searching, the fifteen first bits of the sync word in the register,
    the packet of an earlier attempt still in place. *)
Definition stale_packet_state : State :=
  mkState false 0x16D5 0xA7 ([0x41; 0x42; 0x43] ++ replicate 252 0)
          false 3 4 0xAC58 0xAC58 8 [EvPacket [0x41; 0x42; 0x43]].

(** * Proofs *)

Local Arguments to_u8 : simpl never.
Local Arguments to_u16 : simpl never.
Local Arguments crc_xmodem_update : simpl never.
Local Arguments Z.mul : simpl never.
Local Arguments Z.add : simpl never.
Local Arguments Z.sub : simpl never.
Local Arguments Z.pow : simpl never.
Local Arguments Z.of_nat : simpl never.
Local Arguments Z.to_nat : simpl never.

(** ** Bits and fixed-width stores *)

Lemma lor_shift_bit (x : Z) (bit : bool) :
  Z.lor (Z.shiftl x 1) (Z.b2z bit) = 2 * x + Z.b2z bit.
Proof.
  rewrite Z.shiftl_mul_pow2 by lia.
  rewrite <- Z.lxor_lor, <- Z.add_nocarry_lxor; try lia.
  all: destruct bit; simpl Z.b2z; rewrite ?Z.land_0_r; try reflexivity.
  all: change 1 with (Z.ones 1) at 2; rewrite Z.land_ones by lia.
  all: apply Z.mod_mul; lia.
Qed.

Lemma to_u16_bits (x : Z) (n : Z) :
  Z.testbit (to_u16 x) n = (n <? 16) && Z.testbit x n.
Proof.
  unfold to_u16. destruct (Z.ltb_spec n 16).
  - destruct (Z.ltb_spec n 0).
    + rewrite !Z.testbit_neg_r by lia. reflexivity.
    + rewrite Z.mod_pow2_bits_low by lia. reflexivity.
  - rewrite Z.mod_pow2_bits_high by lia. reflexivity.
Qed.

Lemma to_u16_small x : 0 <= x < 2 ^ 16 -> to_u16 x = x.
Proof. intros. unfold to_u16. apply Z.mod_small. lia. Qed.

Lemma to_u16_range x : 0 <= to_u16 x < 2 ^ 16.
Proof. unfold to_u16. apply Z.mod_pos_bound. lia. Qed.

Lemma lxor_u16 a b : 0 <= a < 2 ^ 16 -> 0 <= b < 2 ^ 16 -> 0 <= Z.lxor a b < 2 ^ 16.
Proof.
  intros Ha Hb.
  assert (Hn : 0 <= Z.lxor a b) by (apply Z.lxor_nonneg; lia).
  split; [done|].
  destruct (Z.eq_dec (Z.lxor a b) 0) as [->|Hz]; [lia|].
  apply Z.log2_lt_pow2; [lia|].
  pose proof (Z.log2_lxor a b ltac:(lia) ltac:(lia)).
  assert (Z.log2 a < 16).
  { destruct (Z.eq_dec a 0) as [->|]; [simpl; lia|]. apply Z.log2_lt_pow2; lia. }
  assert (Z.log2 b < 16).
  { destruct (Z.eq_dec b 0) as [->|]; [simpl; lia|]. apply Z.log2_lt_pow2; lia. }
  lia.
Qed.

Lemma to_u16_lxor_l a b : to_u16 (Z.lxor (to_u16 a) b) = to_u16 (Z.lxor a b).
Proof.
  apply Z.bits_inj'. intros n _.
  rewrite !to_u16_bits, !Z.lxor_spec, to_u16_bits.
  destruct (n <? 16); reflexivity.
Qed.

Lemma to_u16_lxor_r a b : to_u16 (Z.lxor a (to_u16 b)) = to_u16 (Z.lxor a b).
Proof. rewrite (Z.lxor_comm a), to_u16_lxor_l, Z.lxor_comm. reflexivity. Qed.

Lemma land_high_bit c :
  Z.land c 0x8000 = if Z.testbit c 15 then 0x8000 else 0.
Proof.
  apply Z.bits_inj'. intros n Hn.
  rewrite Z.land_spec. change 0x8000 with (2 ^ 15).
  rewrite Z.pow2_bits_eqb by lia.
  destruct (Z.eqb_spec 15 n) as [<-|Hne].
  - destruct (Z.testbit c 15); cbn [andb].
    + rewrite Z.pow2_bits_true; [reflexivity | lia].
    + rewrite Z.bits_0. reflexivity.
  - rewrite andb_false_r.
    destruct (Z.testbit c 15).
    + rewrite Z.pow2_bits_false; [reflexivity | lia].
    + rewrite Z.bits_0. reflexivity.
Qed.

Lemma crc_round_reference c : crc_round c = reference_round c.
Proof.
  unfold crc_round, reference_round.
  rewrite land_high_bit, Z.shiftl_mul_pow2 by lia.
  change (2 ^ 1) with 2.
  destruct (Z.testbit c 15); simpl negb; cbv iota; [|reflexivity].
  symmetry. apply to_u16_lxor_l.
Qed.

Lemma crc_loop_iter n c : crc_loop n c = Nat.iter n crc_round c.
Proof.
  revert c. induction n as [|n IH]; intros c; [reflexivity|].
  simpl crc_loop. rewrite IH. symmetry. apply Nat.iter_succ_r.
Qed.

Lemma iter_ext {A} (f g : A -> A) n x :
  (forall y, f y = g y) -> Nat.iter n f x = Nat.iter n g x.
Proof. intros E. induction n as [|n IH]; simpl; [reflexivity|]. rewrite IH. apply E. Qed.

Lemma crc_update_reference crc b : crc_xmodem_update crc b = crc_reference crc b.
Proof.
  unfold crc_xmodem_update, crc_reference.
  rewrite crc_loop_iter, Z.shiftl_mul_pow2 by lia.
  rewrite (iter_ext crc_round reference_round) by apply crc_round_reference.
  f_equal. symmetry. apply to_u16_lxor_r.
Qed.

Lemma crc_round_range c : 0 <= crc_round c < 2 ^ 16.
Proof. unfold crc_round. destruct (negb _); apply to_u16_range. Qed.

Lemma crc_loop_range n c : 0 <= c < 2 ^ 16 -> 0 <= crc_loop n c < 2 ^ 16.
Proof.
  revert c. induction n as [|n IH]; intros c Hc; [exact Hc|].
  simpl. apply IH, crc_round_range.
Qed.

Lemma crc_update_range crc b : 0 <= crc_xmodem_update crc b < 2 ^ 16.
Proof. unfold crc_xmodem_update. apply crc_loop_range, to_u16_range. Qed.

Lemma high_bit_u16 c : 0 <= c < 2 ^ 16 -> Z.testbit c 15 = (2 ^ 15 <=? c).
Proof.
  intros Hc. apply Z.b2z_inj. rewrite Z.testbit_spec' by lia.
  destruct (Z.leb_spec (2 ^ 15) c); simpl Z.b2z.
  - rewrite <- (Z.div_unique c (2 ^ 15) 1 (c - 2 ^ 15)); [reflexivity| lia | lia].
  - rewrite Z.div_small by lia. reflexivity.
Qed.

Lemma crc_round_inj c1 c2 :
  0 <= c1 < 2 ^ 16 -> 0 <= c2 < 2 ^ 16 -> crc_round c1 = crc_round c2 -> c1 = c2.
Proof.
  intros H1 H2. rewrite !crc_round_reference. unfold reference_round.
  rewrite !high_bit_u16 by done.
  assert (Hodd : forall c, 0 <= c < 2 ^ 16 ->
            Z.odd (Z.lxor ((c * 2) mod 2 ^ 16) 0x1021 mod 2 ^ 16) = true).
  { intros c Hc. fold (to_u16 (Z.lxor ((c * 2) mod 2 ^ 16) 4129)).
    rewrite <- Z.bit0_odd, to_u16_bits, Z.lxor_spec, !Z.bit0_odd.
    fold (to_u16 (c * 2)). simpl.
    replace (Z.odd (to_u16 (c * 2))) with false; [reflexivity|].
    rewrite <- Z.bit0_odd, to_u16_bits, Z.bit0_odd, Z.mul_comm, Z.odd_even.
    reflexivity. }
  assert (Heven : forall c, Z.odd ((c * 2) mod 2 ^ 16) = false).
  { intros c. fold (to_u16 (c * 2)).
    rewrite <- Z.bit0_odd, to_u16_bits, Z.bit0_odd, Z.mul_comm, Z.odd_even.
    reflexivity. }
  destruct (Z.leb_spec (2 ^ 15) c1), (Z.leb_spec (2 ^ 15) c2); intros E.
  - assert (E' : (c1 * 2) mod 2 ^ 16 = (c2 * 2) mod 2 ^ 16).
    { rewrite !(Z.mod_small (Z.lxor _ _)) in E
        by (apply lxor_u16; [apply Z.mod_pos_bound|]; lia).
      apply (f_equal (fun x => Z.lxor x 0x1021)) in E.
      rewrite !Z.lxor_assoc, !Z.lxor_nilpotent, !Z.lxor_0_r in E. exact E. }
    rewrite <- (Z.mod_unique (c1 * 2) (2 ^ 16) 1 (c1 * 2 - 2 ^ 16)) in E' by lia.
    rewrite <- (Z.mod_unique (c2 * 2) (2 ^ 16) 1 (c2 * 2 - 2 ^ 16)) in E' by lia.
    lia.
  - pose proof (Hodd c1 H1) as O1. rewrite E, Heven in O1. discriminate.
  - pose proof (Hodd c2 H2) as O2. rewrite <- E, Heven in O2. discriminate.
  - rewrite !Z.mod_small in E by lia. lia.
Qed.

Lemma crc_loop_inj n c1 c2 :
  0 <= c1 < 2 ^ 16 -> 0 <= c2 < 2 ^ 16 -> crc_loop n c1 = crc_loop n c2 -> c1 = c2.
Proof.
  revert c1 c2. induction n as [|n IH]; intros c1 c2 H1 H2 E; [exact E|].
  simpl in E. apply IH in E; try apply crc_round_range.
  now apply crc_round_inj.
Qed.

Lemma shifted_byte_u16 b : 0 <= b < 2 ^ 8 -> 0 <= Z.shiftl b 8 < 2 ^ 16.
Proof. intros Hb. rewrite Z.shiftl_mul_pow2 by lia. lia. Qed.

Lemma lxor_cancel_r a b c : Z.lxor a c = Z.lxor b c -> a = b.
Proof.
  intros E. apply (f_equal (fun x => Z.lxor x c)) in E.
  now rewrite !Z.lxor_assoc, !Z.lxor_nilpotent, !Z.lxor_0_r in E.
Qed.

Lemma crc_update_inj_crc c1 c2 b :
  0 <= c1 < 2 ^ 16 -> 0 <= c2 < 2 ^ 16 -> 0 <= b < 2 ^ 8 ->
  crc_xmodem_update c1 b = crc_xmodem_update c2 b -> c1 = c2.
Proof.
  intros H1 H2 Hb E. unfold crc_xmodem_update in E.
  apply crc_loop_inj in E; try apply to_u16_range.
  rewrite !to_u16_small in E by (apply lxor_u16; auto using shifted_byte_u16).
  exact (lxor_cancel_r _ _ _ E).
Qed.

Lemma crc_update_inj_data c b1 b2 :
  0 <= c < 2 ^ 16 -> 0 <= b1 < 2 ^ 8 -> 0 <= b2 < 2 ^ 8 ->
  crc_xmodem_update c b1 = crc_xmodem_update c b2 -> b1 = b2.
Proof.
  intros Hc H1 H2 E. unfold crc_xmodem_update in E.
  apply crc_loop_inj in E; try apply to_u16_range.
  rewrite !to_u16_small in E by (apply lxor_u16; auto using shifted_byte_u16).
  rewrite !(Z.lxor_comm c) in E. apply lxor_cancel_r in E.
  rewrite !Z.shiftl_mul_pow2 in E by lia. lia.
Qed.

Lemma crc_fold_range bs c :
  0 <= c < 2 ^ 16 -> 0 <= fold_left crc_xmodem_update bs c < 2 ^ 16.
Proof.
  revert c. induction bs as [|b bs IH]; intros c Hc; [exact Hc|].
  simpl. apply IH, crc_update_range.
Qed.

Lemma crc_fold_inj bs c1 c2 :
  Forall u8 bs -> 0 <= c1 < 2 ^ 16 -> 0 <= c2 < 2 ^ 16 ->
  fold_left crc_xmodem_update bs c1 = fold_left crc_xmodem_update bs c2 -> c1 = c2.
Proof.
  intros Hbs. revert c1 c2.
  induction Hbs as [|b bs Hb Hbs IH]; intros c1 c2 H1 H2 E; [exact E|].
  simpl in E. apply IH in E; try apply crc_update_range.
  now apply crc_update_inj_crc in E.
Qed.

(** One corrupted byte changes the CRC of the message. *)
Lemma crc_of_one_byte pre b b' post :
  Forall u8 post -> u8 b -> u8 b' -> b <> b' ->
  crc_of (pre ++ b :: post) <> crc_of (pre ++ b' :: post).
Proof.
  intros Hpost Hb Hb' Hne E. unfold crc_of in E.
  rewrite !fold_left_app in E. simpl in E.
  assert (Hc : 0 <= fold_left crc_xmodem_update pre CRC_START < 2 ^ 16)
    by (apply crc_fold_range; unfold CRC_START; lia).
  apply crc_fold_inj in E; try apply crc_update_range; [|exact Hpost].
  now apply crc_update_inj_data in E.
Qed.

Lemma byte_of_its_bits b :
  0 <= b < 2 ^ 8 ->
  128 * Z.b2z (Z.testbit b 7) + 64 * Z.b2z (Z.testbit b 6)
  + 32 * Z.b2z (Z.testbit b 5) + 16 * Z.b2z (Z.testbit b 4)
  + 8 * Z.b2z (Z.testbit b 3) + 4 * Z.b2z (Z.testbit b 2)
  + 2 * Z.b2z (Z.testbit b 1) + Z.b2z (Z.testbit b 0) = b.
Proof.
  intros Hb. rewrite !Z.testbit_spec' by lia.
  change (2 ^ 0) with 1. rewrite Z.div_1_r.
  Z.div_mod_to_equations. lia.
Qed.

Lemma pack_byte x b :
  0 <= b < 2 ^ 8 ->
  pack (fold_left pack
          [Z.testbit b 7; Z.testbit b 6; Z.testbit b 5; Z.testbit b 4;
           Z.testbit b 3; Z.testbit b 2; Z.testbit b 1] x)
       (Z.testbit b 0) = b.
Proof.
  intros Hb. pose proof (byte_of_its_bits b Hb) as E.
  cbn [fold_left].
  unfold pack. rewrite !lor_shift_bit. unfold to_u8.
  repeat match goal with |- context [Z.b2z ?t] =>
    let v := fresh "t" in let Hv := fresh "Ht" in
    assert (Hv : 0 <= Z.b2z t <= 1) by (destruct t; simpl; lia);
    set (v := Z.b2z t) in *; clearbody v end.
  Z.div_mod_to_equations. lia.
Qed.

(** ** The decoder on whole bytes *)

(** Case analysis on the integer tests of a goal, the impossible cases
    closed by arithmetic. *)
Ltac ztest :=
  repeat match goal with
  | |- context [?a =? ?b] => destruct (Z.eqb_spec a b); try lia
  | |- context [?a <? ?b] => destruct (Z.ltb_spec a b); try lia
  | |- context [?a <=? ?b] => destruct (Z.leb_spec a b); try lia
  end.

(** The fields of a state built by the setters. *)
Ltac fields :=
  cbv beta iota zeta delta
      [verbose syncBuffer byte buffer packetSync len offset computedCrc
       readCrc skipBit out set_syncBuffer set_byte set_buffer set_packetSync
       set_len set_offset set_computedCrc set_readCrc set_skipBit print
       set_verbose erase] in *.

Lemma run_app s bits1 bits2 :
  run s (bits1 ++ bits2) = s' ← run s bits1; run s' bits2.
Proof.
  revert s. induction bits1 as [|bit bits1 IH]; intros s; [reflexivity|].
  cbn [app run]. destruct (processBit s bit) as [s1|]; cbn [mbind option_bind];
    [apply IH | reflexivity].
Qed.

Lemma processBit_within s bit :
  packetSync s = true -> 1 < skipBit s ->
  processBit s bit
  = Some (set_skipBit (set_byte s (pack (byte s) bit)) (skipBit s - 1)).
Proof.
  intros Hl Hk. unfold processBit. rewrite Hl. destruct s; fields.
  ztest. reflexivity.
Qed.

Lemma processBit_eighth s bit :
  packetSync s = true -> skipBit s <= 1 ->
  processBit s bit = feedByte s (pack (byte s) bit).
Proof.
  intros Hl Hk. unfold processBit, feedByte. rewrite Hl. destruct s; fields.
  ztest. reflexivity.
Qed.

Lemma bind_Some {A} (m : option A) : (x ← m; Some x) = m.
Proof. destruct m; reflexivity. Qed.

(** The first bits of a byte only move the byte register and the
    countdown. *)
Lemma run_within bits s :
  packetSync s = true -> Z.of_nat (length bits) < skipBit s ->
  run s bits
  = Some (set_skipBit (set_byte s (fold_left pack bits (byte s)))
                      (skipBit s - Z.of_nat (length bits))).
Proof.
  revert s. induction bits as [|bit bits IH]; intros s Hl Hk.
  - cbn [run fold_left length]. f_equal. destruct s; fields. f_equal. lia.
  - cbn [length] in Hk. cbn [run fold_left].
    rewrite processBit_within by (first [assumption | lia]).
    cbn [mbind option_bind]. rewrite IH.
    + f_equal. destruct s; fields. f_equal. cbn [length]. lia.
    + destruct s; exact Hl.
    + destruct s; fields. lia.
Qed.

Lemma feedByte_frame s v k b :
  feedByte (set_skipBit (set_byte s v) k) b = feedByte s b.
Proof. unfold feedByte. destruct s; reflexivity. Qed.

Lemma run_byte s b :
  packetSync s = true -> skipBit s = 8 -> u8 b ->
  run s (bits_of_byte b) = feedByte s b.
Proof.
  intros Hl Hk Hb. unfold bits_of_byte.
  change (run s ([Z.testbit b 7; Z.testbit b 6; Z.testbit b 5; Z.testbit b 4;
                  Z.testbit b 3; Z.testbit b 2; Z.testbit b 1]
                 ++ [Z.testbit b 0]) = feedByte s b).
  rewrite run_app, run_within by (cbn [length]; first [assumption | lia]).
  cbn [mbind option_bind run].
  rewrite processBit_eighth, bind_Some, feedByte_frame.
  - f_equal. destruct s; fields. apply pack_byte, Hb.
  - destruct s; exact Hl.
  - destruct s; fields. cbn [length]. lia.
Qed.

Lemma bits_of_bytes_cons b bs :
  bits_of_bytes (b :: bs) = bits_of_byte b ++ bits_of_bytes bs.
Proof. reflexivity. Qed.

Lemma packets_app evs1 evs2 : packets (evs1 ++ evs2) = packets evs1 ++ packets evs2.
Proof.
  induction evs1 as [|e evs1 IH]; [reflexivity|].
  destruct e; simpl; rewrite IH; reflexivity.
Qed.

(** The length byte of a packet attempt. *)
Lemma feed_length s n :
  fresh_lock s -> u8 n -> n <= MAX_PACKET_SIZE - 1 ->
  exists s', feedByte s n = Some s' /\ in_data s' n [] /\ carried s s'
             /\ packets (out s') = packets (out s).
Proof.
  unfold fresh_lock, packet_reset, in_data, carried, feedByte, processByte, u8.
  destruct s as [v sy by_ buf ps le off cc rc sk ou]; fields.
  intros (-> & -> & (-> & -> & -> & ->) & Hbuf) Hn Hmax.
  change (-1 =? -1) with true. cbv iota. ztest.
  destruct v; cbn [mbind option_bind]; fields;
    (eexists; split; [reflexivity|]); fields;
    rewrite ?packets_app, ?app_nil_r; auto 12.
Qed.

(** One payload byte. *)
Lemma feed_data s n got b :
  in_data s n got -> Z.of_nat (length got) < n -> n <= MAX_PACKET_SIZE - 1 ->
  exists s', feedByte s b = Some s' /\ in_data s' n (got ++ [b]) /\ carried s s'
             /\ packets (out s') = packets (out s).
Proof.
  unfold in_data, carried, feedByte, processByte, buffer_store, MAX_PACKET_SIZE.
  destruct s as [v sy by_ buf ps le off cc rc sk ou]; fields.
  intros (-> & -> & -> & -> & Htake & -> & -> & Hbuf) Hlt Hmax.
  rewrite Hbuf. ztest. cbn [andb mbind option_bind]. fields.
  eexists; split; [reflexivity|]. fields.
  rewrite Nat2Z.id, length_insert, length_app. cbn [length].
  repeat split; try done; try lia.
  - rewrite Nat.add_1_r.
    rewrite (take_S_r _ _ b) by (apply list_lookup_insert_eq; lia).
    rewrite take_insert_ge, Htake by lia. reflexivity.
  - unfold crc_of. change (n :: got ++ [b]) with ((n :: got) ++ [b]).
    rewrite fold_left_app. reflexivity.
Qed.

(** The payload bytes of a packet attempt. *)
Lemma run_data bs s n got :
  in_data s n got -> Z.of_nat (length got + length bs) <= n ->
  n <= MAX_PACKET_SIZE - 1 -> Forall u8 bs ->
  exists s', run s (bits_of_bytes bs) = Some s' /\ in_data s' n (got ++ bs)
             /\ carried s s' /\ packets (out s') = packets (out s).
Proof.
  revert s got. induction bs as [|b bs IH]; intros s got Hin Hlen Hmax Hbs.
  - exists s. rewrite app_nil_r. unfold carried.
    split; [reflexivity|]. split; [exact Hin|]. auto.
  - cbn [length] in Hlen. apply Forall_cons in Hbs as [Hb Hbs].
    destruct (feed_data s n got b Hin) as (s1 & E1 & Hin1 & Hc1 & Hp1); [lia|lia|].
    destruct (IH s1 (got ++ [b]) Hin1) as (s2 & E2 & Hin2 & Hc2 & Hp2);
      [rewrite length_app; cbn [length]; lia | lia | exact Hbs |].
    exists s2. rewrite bits_of_bytes_cons, run_app, run_byte, E1; [|apply Hin..|exact Hb].
    cbn [mbind option_bind]. rewrite <- app_assoc in Hin2.
    unfold carried in *. intuition congruence.
Qed.

Lemma lor_bytes h l : u8 l -> Z.lor (Z.shiftl h 8) l = 256 * h + l.
Proof.
  intros Hl. rewrite Z.shiftl_mul_pow2 by lia.
  rewrite <- Z.lxor_lor, <- Z.add_nocarry_lxor; try lia.
  all: apply Z.bits_inj'; intros n Hn; rewrite Z.land_spec, Z.bits_0.
  all: destruct (Z.lt_ge_cases n 8).
  all: try (rewrite Z.mul_pow2_bits_low by lia; reflexivity).
  all: rewrite <- (Z.mod_small l (2 ^ 8)) by exact Hl.
  all: rewrite Z.mod_pow2_bits_high by lia; apply andb_false_r.
Qed.

(** The value that the two CRC bytes leave in [readCrc]. *)
Lemma read_crc h l :
  u8 h -> u8 l ->
  to_u16 (0xffff - to_u16 (Z.lor (to_u16 (Z.lor 0 (Z.shiftl h 8))) l))
  = 0xffff - (256 * h + l).
Proof.
  intros Hh Hl. unfold u8 in *. rewrite Z.lor_0_l.
  rewrite (to_u16_small (Z.shiftl h 8)) by (apply shifted_byte_u16, Hh).
  rewrite lor_bytes by exact Hl.
  rewrite (to_u16_small (256 * h + l)) by lia.
  apply to_u16_small. lia.
Qed.

(** The two CRC bytes of a packet attempt. *)
Lemma run_crc s n got h l :
  in_data s n got -> Z.of_nat (length got) = n -> n <= MAX_PACKET_SIZE - 1 ->
  u8 h -> u8 l ->
  exists s', run s (bits_of_bytes [h; l]) = Some s' /\ packetSync s' = false
             /\ carried s s'
             /\ packets (out s')
                = packets (out s)
                  ++ (if crc_of (n :: got) =? 0xffff - (256 * h + l)
                      then [got] else []).
Proof.
  intros Hin Hn Hmax Hh Hl. subst n.
  rewrite !bits_of_bytes_cons, run_app, run_byte by (apply Hin || assumption).
  revert Hin. unfold in_data, carried, feedByte, processByte, MAX_PACKET_SIZE in *.
  destruct s as [v sy by_ buf ps le off cc rc sk ou]; fields.
  intros (-> & -> & -> & -> & Htake & -> & -> & Hbuf).
  destruct (Z.eqb_spec (crc_of (Z.of_nat (length got) :: got))
                       (0xffff - (256 * h + l))) as [Hcrc|Hcrc];
    ztest; cbn [mbind option_bind]; fields;
    change (bits_of_bytes []) with (@nil bool); rewrite app_nil_r;
    rewrite run_byte by (reflexivity || assumption);
    unfold feedByte, processByte, buffer_prefix; fields;
    rewrite read_crc, Hbuf by assumption;
    ztest; cbn [mbind option_bind]; try destruct v; fields;
    (eexists; split; [reflexivity|]); fields;
    rewrite ?packets_app, ?app_nil_r; cbn [packets];
    rewrite ?app_nil_r, ?Nat2Z.id, ?Htake; auto.
Qed.

(** ** Searching *)

Lemma searching_miss s bit :
  packetSync s = false -> is_sync (sync_shift (syncBuffer s) bit) = false ->
  processBit s bit = Some (set_syncBuffer s (sync_shift (syncBuffer s) bit)).
Proof.
  unfold processBit, is_sync, sync_shift.
  destruct s as [v sy by_ buf ps le off cc rc sk ou]; fields.
  intros -> ->. reflexivity.
Qed.

Lemma searching_hit s bit :
  packetSync s = false -> is_sync (sync_shift (syncBuffer s) bit) = true ->
  exists s', processBit s bit = Some s' /\
    packetSync s' = true /\ skipBit s' = 8 /\ packet_reset s' /\
    syncBuffer s' = sync_shift (syncBuffer s) bit /\
    verbose s' = verbose s /\ buffer s' = buffer s /\ byte s' = byte s /\
    packets (out s') = packets (out s).
Proof.
  unfold processBit, is_sync, sync_shift, packet_reset.
  destruct s as [v sy by_ buf ps le off cc rc sk ou]; fields.
  intros -> ->. destruct v; fields; (eexists; split; [reflexivity|]); fields;
    rewrite ?packets_app, ?app_nil_r; auto 12.
Qed.

(** A bitstream whose first match is at its last bit takes a Searching
    decoder to a fresh lock. *)
Lemma run_lock bits s :
  packetSync s = false ->
  first_lock (syncBuffer s) bits = Some (length bits - 1)%nat ->
  exists s', run s bits = Some s' /\
    packetSync s' = true /\ skipBit s' = 8 /\ packet_reset s' /\
    is_sync (syncBuffer s') = true /\
    verbose s' = verbose s /\ buffer s' = buffer s /\
    packets (out s') = packets (out s).
Proof.
  revert s. induction bits as [|bit bits IH]; intros s Hs Hfirst; [discriminate|].
  cbn [first_lock length run] in *.
  destruct (is_sync (sync_shift (syncBuffer s) bit)) eqn:Hsync.
  - destruct bits; [|discriminate].
    destruct (searching_hit s bit Hs Hsync) as (s' & -> & Hl & Hk & Hr & Hsy & Hrest).
    exists s'. cbn [mbind option_bind run]. rewrite Hsy. tauto.
  - rewrite searching_miss by assumption. cbn [mbind option_bind].
    destruct (first_lock _ bits) as [k|] eqn:Hk; [|discriminate].
    injection Hfirst as Hfirst.
    destruct (IH (set_syncBuffer s (sync_shift (syncBuffer s) bit))) as (s' & Hrun & Hs');
      [destruct s; exact Hs | destruct s; fields; rewrite Hk; f_equal; lia |].
    exists s'. split; [exact Hrun|]. destruct s; exact Hs'.
Qed.

(** ** A whole packet attempt *)

(** From a fresh lock: the length byte, the bytes [bs] and the two CRC
    bytes [h], [l].  The payload is printed exactly when the CRC of length
    and payload is the complement of the CRC received. *)
Lemma run_frame s bs h l :
  fresh_lock s -> Forall u8 bs -> Z.of_nat (length bs) <= MAX_PACKET_SIZE - 1 ->
  u8 h -> u8 l ->
  exists s',
    run s (bits_of_bytes (Z.of_nat (length bs) :: bs) ++ bits_of_bytes [h; l])
    = Some s' /\
    packetSync s' = false /\ carried s s' /\
    packets (out s')
    = packets (out s)
      ++ (if crc_of (Z.of_nat (length bs) :: bs) =? 0xffff - (256 * h + l)
          then [bs] else []).
Proof.
  intros Hs Hbs Hmax Hh Hl.
  assert (Hn : u8 (Z.of_nat (length bs)))
    by (unfold u8, MAX_PACKET_SIZE in *; lia).
  destruct (feed_length s _ Hs Hn Hmax) as (s1 & E1 & Hin1 & Hc1 & Hp1).
  destruct (run_data bs s1 _ [] Hin1) as (s2 & E2 & Hin2 & Hc2 & Hp2);
    [cbn [length]; lia | exact Hmax | exact Hbs |].
  cbn [app] in Hin2.
  destruct (run_crc s2 _ bs h l Hin2) as (s3 & E3 & Hl3 & Hc3 & Hp3);
    [reflexivity | exact Hmax | exact Hh | exact Hl |].
  exists s3. rewrite bits_of_bytes_cons, <- !app_assoc, run_app.
  rewrite run_byte, E1 by (apply Hs || exact Hn). cbn [mbind option_bind].
  rewrite run_app, E2. cbn [mbind option_bind]. rewrite E3.
  unfold carried in *. rewrite Hp3, Hp2, Hp1. intuition congruence.
Qed.

(** The CRC bytes of the transmitter are two bytes that hold the
    complement of the CRC. *)
Lemma crc_bytes_sent P :
  exists h l, crc_bytes P = [h; l] /\ u8 h /\ u8 l /\
    256 * h + l = 0xFFFF - crc_of (Z.of_nat (length P) :: P).
Proof.
  unfold crc_bytes.
  set (c := crc_of _).
  assert (Hc : 0 <= c < 2 ^ 16) by (apply crc_fold_range; unfold CRC_START; lia).
  eexists _, _. split; [reflexivity|].
  rewrite Z.shiftr_div_pow2 by lia.
  change 0xFF with (Z.ones 8). rewrite Z.land_ones by lia.
  unfold u8. pose proof (Z.div_mod (0xFFFF - c) (2 ^ 8) ltac:(lia)).
  pose proof (Z.mod_pos_bound (0xFFFF - c) (2 ^ 8) ltac:(lia)).
  assert (0 <= (0xFFFF - c) / 2 ^ 8 < 2 ^ 8)
    by (split; [apply Z.div_pos | apply Z.div_lt_upper_bound]; lia).
  lia.
Qed.

(** A Searching decoder on the bitstream of a packet. *)
Lemma run_encode s P :
  packetSync s = false -> first_lock (syncBuffer s) sync_bits = Some 15%nat ->
  length (buffer s) = Z.to_nat MAX_PACKET_SIZE ->
  Forall u8 P -> Z.of_nat (length P) <= MAX_PACKET_SIZE - 1 ->
  exists s', run s (encode P) = Some s' /\
    packetSync s' = false /\ is_sync (syncBuffer s') = true /\
    verbose s' = verbose s /\ length (buffer s') = length (buffer s) /\
    packets (out s') = packets (out s) ++ [P].
Proof.
  intros Hs Hfirst Hbuf HP Hmax.
  destruct (run_lock sync_bits s Hs Hfirst)
    as (s1 & E1 & Hl1 & Hk1 & Hr1 & Hsy1 & Hv1 & Hb1 & Hp1).
  destruct (crc_bytes_sent P) as (h & l & Ecrc & Hh & Hl & Hsent).
  destruct (run_frame s1 P h l) as (s2 & E2 & Hl2 & (Hv2 & Hsy2 & Hb2) & Hp2);
    [unfold fresh_lock; rewrite Hb1; auto | assumption..|].
  exists s2. unfold encode, frame_bits. rewrite run_app, E1, Ecrc.
  cbn [mbind option_bind]. rewrite E2.
  replace (crc_of (Z.of_nat (length P) :: P) =? 0xffff - (256 * h + l)) with true
    in Hp2 by (symmetry; apply Z.eqb_eq; lia).
  rewrite Hsy2, Hv2, Hb2, Hp2, Hb1, Hp1. auto 10.
Qed.

(** * The claims *)

(** ** C1: a valid packet is decoded *)

(** C1.  For every payload [P] of 0 to 254 bytes, the decoder started in
    its initial state (Searching) and fed the sync word, the length byte,
    [P] and the two bytes of the complemented CRC16 over length and
    payload runs to the end of the bitstream, has then printed exactly one
    packet, [P], and is back in Searching.  The same holds from every
    Searching state whose sync register does not match before the last
    bit of the sync word, with [P] as the one packet added to the
    output. *)
Theorem valid_packet_is_emitted_once (v : bool) (P : list Z) :
  Forall u8 P -> (length P <= 254)%nat ->
  (exists s', run (initial v) (encode P) = Some s' /\
              packets (out s') = [P] /\ packetSync s' = false) /\
  (forall s, packetSync s = false -> length (buffer s) = 255%nat ->
             first_lock (syncBuffer s) sync_bits = Some 15%nat ->
     exists s', run s (encode P) = Some s' /\
                packets (out s') = packets (out s) ++ [P] /\
                packetSync s' = false).
Proof.
  intros HP Hlen.
  assert (Hmax : Z.of_nat (length P) <= MAX_PACKET_SIZE - 1)
    by (unfold MAX_PACKET_SIZE; lia).
  split.
  - destruct (run_encode (initial v) P) as (s' & E & Hl & _ & _ & _ & Hp);
      [reflexivity | reflexivity | apply length_replicate | exact HP | exact Hmax |].
    exists s'. auto.
  - intros s Hs Hbuf Hfirst.
    destruct (run_encode s P Hs Hfirst Hbuf HP Hmax) as (s' & E & Hl & _ & _ & _ & Hp).
    exists s'. auto.
Qed.

Lemma valid_packet_is_emitted_once_witness :
  Forall u8 [0x41; 0x42; 0x43] /\ (length [0x41; 0x42; 0x43] <= 254)%nat /\
  exists s', run (initial true) (encode [0x41; 0x42; 0x43]) = Some s' /\
             packets (out s') = [[0x41; 0x42; 0x43]] /\ packetSync s' = false.
Proof.
  assert (H : Forall u8 [0x41; 0x42; 0x43])
    by (repeat constructor; unfold u8; lia).
  assert (L : (length [0x41; 0x42; 0x43] <= 254)%nat) by (simpl; lia).
  split; [exact H|]. split; [exact L|].
  exact (proj1 (valid_packet_is_emitted_once true [0x41; 0x42; 0x43] H L)).
Defined.

(** ** C2: the CRC16 update *)

(** C2.  For every 16-bit value [crc] and every byte [b],
    [crc_xmodem_update] returns what the update worded in the
    specification returns (exclusive or of [b << 8], then eight rounds that
    test the high bit, every intermediate result reduced modulo 2^16), and
    that is a 16-bit value.  The function reads nothing but its two
    arguments: it is a function of two integers, no [State] comes in. *)
Theorem crc_update_is_reference (crc b : Z) :
  0 <= crc < 2 ^ 16 -> u8 b ->
  crc_xmodem_update crc b = crc_reference crc b /\
  0 <= crc_xmodem_update crc b < 2 ^ 16.
Proof.
  intros _ _. split; [apply crc_update_reference | apply crc_update_range].
Qed.

Lemma crc_update_is_reference_witness :
  0 <= 0x1D0F < 2 ^ 16 /\ u8 0x03 /\
  crc_xmodem_update 0x1D0F 0x03 = crc_reference 0x1D0F 0x03 /\
  0 <= crc_xmodem_update 0x1D0F 0x03 < 2 ^ 16.
Proof.
  assert (Hc : 0 <= 0x1D0F < 2 ^ 16) by lia.
  assert (Hb : u8 0x03) by (unfold u8; lia).
  split; [exact Hc|]. split; [exact Hb|].
  exact (crc_update_is_reference 0x1D0F 0x03 Hc Hb).
Defined.

(** ** C3: the second CRC byte *)

Lemma lor_u16 a b : 0 <= a < 2 ^ 16 -> 0 <= b < 2 ^ 16 -> 0 <= Z.lor a b < 2 ^ 16.
Proof.
  intros Ha Hb.
  assert (Hn : 0 <= Z.lor a b) by (apply Z.lor_nonneg; lia).
  split; [exact Hn|].
  destruct (Z.eq_dec (Z.lor a b) 0) as [->|Hz]; [lia|].
  apply Z.log2_lt_pow2; [lia|].
  rewrite Z.log2_lor by lia.
  assert (Z.log2 a < 16).
  { destruct (Z.eq_dec a 0) as [->|]; [simpl; lia|]. apply Z.log2_lt_pow2; lia. }
  assert (Z.log2 b < 16).
  { destruct (Z.eq_dec b 0) as [->|]; [simpl; lia|]. apply Z.log2_lt_pow2; lia. }
  lia.
Qed.

(** [processByte] on the second CRC byte. *)
Lemma crc_low_byte s b :
  0 <= len s <= MAX_PACKET_SIZE -> offset s = len s + 1 ->
  length (buffer s) = Z.to_nat MAX_PACKET_SIZE ->
  u8 b -> 0 <= readCrc s < 2 ^ 16 ->
  let received := 0xFFFF - Z.lor (readCrc s) b in
  let payload := take (Z.to_nat (len s)) (buffer s) in
  exists s',
    processByte s b = Some (s', false) /\
    readCrc s' = received /\
    (computedCrc s = received -> out s' = out s ++ [EvPacket payload]) /\
    (computedCrc s <> received -> packets (out s') = packets (out s)).
Proof.
  unfold processByte, buffer_prefix, MAX_PACKET_SIZE, u8.
  destruct s as [v sy by_ buf ps le off cc rc sk ou]; fields.
  intros Hle -> Hbuf Hb Hrc.
  pose proof (lor_u16 rc b Hrc ltac:(lia)) as Hraw.
  rewrite (to_u16_small (Z.lor rc b)) by exact Hraw.
  rewrite (to_u16_small (0xffff - Z.lor rc b)) by lia.
  rewrite Hbuf.
  ztest; cbn [mbind option_bind]; try destruct v; fields;
    (eexists; split; [reflexivity|]); fields;
    rewrite ?packets_app, ?app_nil_r; cbn [packets];
    rewrite ?app_nil_r; repeat split; auto; try lia; try congruence.
Qed.

(** C3.  On the second CRC byte (offset = length + 1) the 16-bit value
    received is replaced by 0xFFFF minus itself and then compared with the
    running CRC: on equality the first [len] bytes of the array, and they
    are [len] bytes, are printed as one packet, otherwise no packet is
    printed; either way [processByte] returns [false], and the Locked
    branch of [processBit] that delivered the byte leaves [packetSync]
    false (Searching). *)
Theorem second_crc_byte_decides (s : State) (b : Z) :
  0 <= len s <= MAX_PACKET_SIZE -> offset s = len s + 1 ->
  length (buffer s) = Z.to_nat MAX_PACKET_SIZE ->
  u8 b -> 0 <= readCrc s < 2 ^ 16 ->
  let received := 0xFFFF - Z.lor (readCrc s) b in
  let payload := take (Z.to_nat (len s)) (buffer s) in
  (exists s',
     processByte s b = Some (s', false) /\
     readCrc s' = received /\
     (computedCrc s = received -> out s' = out s ++ [EvPacket payload]) /\
     (computedCrc s <> received -> packets (out s') = packets (out s))) /\
  length payload = Z.to_nat (len s) /\
  (forall bit, packetSync s = true -> skipBit s <= 1 -> pack (byte s) bit = b ->
     exists s',
       processBit s bit = Some s' /\ packetSync s' = false /\
       (computedCrc s = received -> out s' = out s ++ [EvPacket payload]) /\
       (computedCrc s <> received -> packets (out s') = packets (out s))).
Proof.
  intros Hlen Hoff Hbuf Hb Hrc received payload.
  split; [apply crc_low_byte; assumption|]. split.
  - apply length_take_le. unfold MAX_PACKET_SIZE in *. lia.
  - intros bit Hl Hk Hpack. rewrite processBit_eighth, Hpack by assumption.
    unfold feedByte.
    destruct (crc_low_byte (set_skipBit (set_byte s b) 8) b)
      as (s1 & -> & _ & Hyes & Hno);
      try (destruct s; assumption).
    cbn [mbind option_bind]. eexists. split; [reflexivity|].
    destruct s, s1; fields. auto.
Qed.

Lemma second_crc_byte_decides_witness :
  (0 <= len last_byte_state <= MAX_PACKET_SIZE /\
   offset last_byte_state = len last_byte_state + 1 /\
   length (buffer last_byte_state) = Z.to_nat MAX_PACKET_SIZE /\
   u8 0xA7 /\ 0 <= readCrc last_byte_state < 2 ^ 16) /\
  exists s', processBit last_byte_state true = Some s' /\ packetSync s' = false /\
             out s' = [EvPacket [0x41; 0x42; 0x43]].
Proof.
  assert (H1 : 0 <= len last_byte_state <= MAX_PACKET_SIZE)
    by (cbv; split; discriminate).
  assert (H2 : offset last_byte_state = len last_byte_state + 1) by reflexivity.
  assert (H3 : length (buffer last_byte_state) = Z.to_nat MAX_PACKET_SIZE)
    by reflexivity.
  assert (H4 : u8 0xA7) by (unfold u8; lia).
  assert (H5 : 0 <= readCrc last_byte_state < 2 ^ 16)
    by (cbv; split; [discriminate|reflexivity]).
  split; [auto|].
  destruct (second_crc_byte_decides last_byte_state 0xA7 H1 H2 H3 H4 H5)
    as (_ & _ & Hbit).
  destruct (Hbit true) as (s' & E & Hl & Hyes & _);
    [reflexivity | cbv; discriminate | reflexivity |].
  exists s'. split; [exact E|]. split; [exact Hl|].
  apply Hyes. reflexivity.
Defined.

(** ** C4: the length byte *)

Lemma feed_length_any s b :
  fresh_lock s -> u8 b ->
  exists s', feedByte s b = Some s' /\
    packetSync s' = (b <=? MAX_PACKET_SIZE - 1) /\ len s' = b /\
    computedCrc s' = crc_xmodem_update CRC_START b /\
    packets (out s') = packets (out s) /\
    syncBuffer s' = syncBuffer s /\ buffer s' = buffer s /\
    verbose s' = verbose s.
Proof.
  unfold fresh_lock, packet_reset, feedByte, processByte, u8.
  destruct s as [v sy by_ buf ps le off cc rc sk ou]; fields.
  intros (-> & -> & (-> & -> & -> & ->) & Hbuf) Hb.
  change (-1 =? -1) with true. cbv iota.
  destruct (b <=? MAX_PACKET_SIZE - 1), v; cbn [mbind option_bind]; fields;
    (eexists; split; [reflexivity|]); fields;
    rewrite ?packets_app, ?app_nil_r; auto 12.
Qed.

Lemma first_lock_after_sync r :
  is_sync r = true -> first_lock r sync_bits = Some 15%nat.
Proof.
  unfold is_sync. intros [E|E]%orb_true_iff; apply Z.eqb_eq in E; subst r;
    reflexivity.
Qed.

(** C4.  From a fresh lock, the first byte [b] is the length: it is fed
    into the running CRC whatever it is, no packet is printed, and the
    decoder stays Locked exactly when [b <= 254] (so 254 is accepted and
    255 is rejected).  After the rejection of a length byte 255 the decoder
    is in Searching, and the bitstream of a packet that follows at the very
    next bit is decoded. *)
Theorem length_byte_gate (s : State) (b : Z) (P : list Z) :
  fresh_lock s -> is_sync (syncBuffer s) = true -> u8 b ->
  Forall u8 P -> (length P <= 254)%nat ->
  (exists s1, run s (bits_of_byte b) = Some s1 /\
     packetSync s1 = (b <=? 254) /\
     computedCrc s1 = crc_xmodem_update CRC_START b /\
     packets (out s1) = packets (out s)) /\
  (exists s1 s2, run s (bits_of_byte 255) = Some s1 /\
     packetSync s1 = false /\ packets (out s1) = packets (out s) /\
     run s1 (encode P) = Some s2 /\
     run s (bits_of_byte 255 ++ encode P) = Some s2 /\
     packets (out s2) = packets (out s) ++ [P]).
Proof.
  intros Hs Hsync Hb HP Hlen. split.
  - destruct (feed_length_any s b Hs Hb) as (s1 & E & Hl & _ & Hc & Hp & _).
    exists s1. rewrite run_byte by (apply Hs || exact Hb). auto.
  - assert (H255 : u8 255) by (unfold u8; lia).
    destruct (feed_length_any s 255 Hs H255)
      as (s1 & E1 & Hl1 & _ & _ & Hp1 & Hsy1 & Hb1 & _).
    destruct (run_encode s1 P) as (s2 & E2 & _ & _ & _ & _ & Hp2);
      [exact Hl1 | apply first_lock_after_sync; congruence
      | rewrite Hb1; apply Hs | exact HP | unfold MAX_PACKET_SIZE; lia |].
    exists s1, s2. rewrite run_app, run_byte, E1 by (apply Hs || exact H255).
    cbn [mbind option_bind]. rewrite Hp2, Hp1. auto 10.
Qed.

Lemma length_byte_gate_witness :
  (fresh_lock first_byte_state /\ is_sync (syncBuffer first_byte_state) = true /\
   u8 254 /\ Forall u8 [0x41; 0x42; 0x43] /\ (length [0x41; 0x42; 0x43] <= 254)%nat) /\
  (exists s1, run first_byte_state (bits_of_byte 254) = Some s1 /\
     packetSync s1 = true) /\
  (exists s2, run first_byte_state (bits_of_byte 255 ++ encode [0x41; 0x42; 0x43])
              = Some s2 /\
     packets (out s2) = [[0x41; 0x42; 0x43]]).
Proof.
  assert (H1 : fresh_lock first_byte_state) by (repeat split; reflexivity).
  assert (H2 : is_sync (syncBuffer first_byte_state) = true) by reflexivity.
  assert (H3 : u8 254) by (unfold u8; lia).
  assert (H4 : Forall u8 [0x41; 0x42; 0x43])
    by (repeat constructor; unfold u8; lia).
  assert (H5 : (length [0x41; 0x42; 0x43] <= 254)%nat) by (simpl; lia).
  split; [auto 10|].
  destruct (length_byte_gate first_byte_state 254 [0x41; 0x42; 0x43] H1 H2 H3 H4 H5)
    as ((s1 & E1 & Hl1 & _) & (_ & s2 & _ & _ & _ & _ & E2 & Hp2)).
  split; [exists s1 | exists s2]; auto.
Defined.

(** ** C5: the lock and the reset of the packet *)

Lemma pack_range x bit : 0 <= pack x bit < 2 ^ 8.
Proof. unfold pack, to_u8. apply Z.mod_pos_bound. lia. Qed.

(** A Locked step does not bring the packet into the reset state from
    another state. *)
Lemma locked_step_no_reset s bit s' :
  packetSync s = true -> processBit s bit = Some s' ->
  packet_reset s' -> packet_reset s.
Proof.
  intros Hl Hstep.
  destruct (Z.lt_ge_cases 1 (skipBit s)) as [Hk|Hk].
  - rewrite processBit_within in Hstep by assumption.
    injection Hstep as <-. destruct s; exact id.
  - rewrite processBit_eighth in Hstep by (assumption || lia).
    pose proof (pack_range (byte s) bit) as Hb. revert Hstep Hb.
    generalize (pack (byte s) bit) as b.
    unfold feedByte, processByte, buffer_store, buffer_prefix, packet_reset.
    destruct s as [v sy by_ buf ps le off cc rc sk ou]; fields. intros b.
    destruct (Z.eqb_spec le (-1)) as [->|Hle].
    + destruct (b <=? MAX_PACKET_SIZE - 1), v; cbn [mbind option_bind];
        intros [= <-]; fields; lia.
    + repeat match goal with
             | |- context [if ?c then _ else _] => destruct c
             end;
        cbn [mbind option_bind]; intros [= <-]; fields; tauto.
Qed.

(** C5.  In Searching every bit is shifted into the 16-bit sync register
    and the register is then compared with the sync word and with its
    16-bit complement.  A match, and only a match, gives Locked, and in
    that same step the packet is reset (length unset, offset 0, computed
    CRC 0x1D0F, received CRC 0) and the bit countdown set to 8; without a
    match the packet and the countdown are left as they are.  No other
    step of [processBit] takes the packet from another state into the reset
    state. *)
Theorem lock_resets_packet (s : State) (bit : bool) :
  (packetSync s = false ->
   let reg := to_u16 (Z.lor (Z.shiftl (syncBuffer s) 1) (Z.b2z bit)) in
   let hit := (reg =? SYNC_WORD) || (reg =? 0xffff - SYNC_WORD) in
   exists s', processBit s bit = Some s' /\
     syncBuffer s' = reg /\ packetSync s' = hit /\
     (hit = true -> packet_reset s' /\ skipBit s' = 8) /\
     (hit = false ->
      len s' = len s /\ offset s' = offset s /\ computedCrc s' = computedCrc s /\
      readCrc s' = readCrc s /\ skipBit s' = skipBit s /\ buffer s' = buffer s)) /\
  (forall s', processBit s bit = Some s' ->
     packet_reset s' -> ~ packet_reset s ->
     packetSync s = false /\ packetSync s' = true).
Proof.
  split.
  - intros Hs reg hit.
    destruct hit eqn:Hhit.
    + destruct (searching_hit s bit Hs Hhit)
        as (s' & E & Hl & Hk & Hr & Hsy & _).
      exists s'. repeat split; try apply Hr; auto; discriminate.
    + rewrite (searching_miss s bit Hs Hhit). eexists. split; [reflexivity|].
      destruct s; fields. repeat split; auto; discriminate.
  - intros s' Hstep Hr' Hr.
    destruct (packetSync s) eqn:Hs.
    + destruct Hr. exact (locked_step_no_reset s bit s' Hs Hstep Hr').
    + split; [reflexivity|].
      destruct (is_sync (sync_shift (syncBuffer s) bit)) eqn:Hhit.
      * destruct (searching_hit s bit Hs Hhit) as (s1 & E & Hl & _).
        congruence.
      * rewrite (searching_miss s bit Hs Hhit) in Hstep. injection Hstep as <-.
        destruct Hr. destruct s; exact Hr'.
Qed.

Lemma lock_resets_packet_witness :
  (packetSync stale_packet_state = false) /\
  exists s', processBit stale_packet_state false = Some s' /\
    packetSync s' = true /\ packet_reset s' /\ skipBit s' = 8.
Proof.
  assert (H : packetSync stale_packet_state = false) by reflexivity.
  split; [exact H|].
  destruct (proj1 (lock_resets_packet stale_packet_state false) H)
    as (s' & E & _ & Hl & Hhit & _).
  exists s'. split; [exact E|]. split; [exact Hl|]. apply Hhit. reflexivity.
Defined.

(** ** C6: the bit slicer *)

Lemma to_i16_small x : int16 x -> to_i16 x = x.
Proof.
  unfold int16, to_i16. intros Hx. rewrite Z.mod_small by lia. lia.
Qed.

(** The moving average stays between the sample and the old threshold,
    so the store into the [int16_t] does not wrap. *)
Lemma average_int16 d s t :
  1 <= d -> int16 s -> int16 t ->
  int16 ((s + (8 * d - 1) * t) ÷ (8 * d)).
Proof.
  unfold int16. intros Hd Hs Ht.
  assert (Hq : (- 2 ^ 15 * (8 * d)) ÷ (8 * d) <= (s + (8 * d - 1) * t) ÷ (8 * d)
               <= ((2 ^ 15 - 1) * (8 * d)) ÷ (8 * d))
    by (split; apply Z.quot_le_mono; nia).
  rewrite !Z.quot_mul in Hq by lia. lia.
Qed.

(** The cadence of the countdown: from a countdown [k] between 1 and [d],
    sample number [i] decides a bit exactly when [i + 1 - k] is a multiple
    of [d]. *)
Lemma slice_cadence d samples sl i :
  1 <= skipSamples sl <= d -> (i < length samples)%nat ->
  exists o, slice d sl samples !! i = Some o /\
    (is_Some o <-> (Z.of_nat i + 1 + (d - skipSamples sl)) mod d = 0).
Proof.
  revert sl i. induction samples as [|x samples IH]; intros sl i Hk Hi;
    [cbn [length] in Hi; lia|].
  cbn [slice]. unfold sliceSample.
  destruct (Z.ltb_spec (skipSamples sl - 1) 1) as [Hlast|Hmore].
  - assert (Ek : skipSamples sl = 1) by lia.
    destruct i as [|i].
    + eexists. split; [reflexivity|]. rewrite Ek.
      replace (Z.of_nat 0 + 1 + (d - 1)) with (1 * d) by lia.
      rewrite Z.mod_mul by lia. split; [reflexivity | intros _; eexists; reflexivity].
    + cbn [length] in Hi.
      destruct (IH (mkSlicer (to_i16 ((x + (8 * d - 1) * threshold sl) ÷ (8 * d))) d) i)
        as (o & Ho & Hiff); [cbn; lia | lia |].
      exists o. split; [exact Ho|]. rewrite Hiff. cbn [skipSamples]. rewrite Ek.
      replace (Z.of_nat (S i) + 1 + (d - 1)) with (Z.of_nat i + 1 + (d - d) + 1 * d) by lia.
      rewrite Z.mod_add by lia. reflexivity.
  - destruct i as [|i].
    + eexists. split; [reflexivity|].
      rewrite Z.mod_small by lia. split; [intros [? [=]] | lia].
    + cbn [length] in Hi.
      destruct (IH (mkSlicer (to_i16 ((x + (8 * d - 1) * threshold sl) ÷ (8 * d)))
                             (skipSamples sl - 1)) i)
        as (o & Ho & Hiff); [cbn; lia | lia |].
      exists o. split; [exact Ho|]. rewrite Hiff. cbn [skipSamples].
      replace (Z.of_nat (S i) + 1 + (d - skipSamples sl))
        with (Z.of_nat i + 1 + (d - (skipSamples sl - 1))) by lia.
      reflexivity.
Qed.

(** C6.  With a downsample factor [D] between 1 and 32 (what a 16-bit
    sample rate that passed the check gives is 2 to 32) and 16-bit samples
    and threshold: every sample [s] sets the threshold to
    [(s + (8 D - 1) T) / (8 D)], the division truncating, whether a bit is
    decided or not; the bit, when one is decided, is [s > T] for the new
    threshold [T], so that equality gives false; starting from the
    countdown [D], the samples that decide a bit are the [D]-th, the
    [2 D]-th, ... and no other. *)
Theorem slicer_threshold_and_cadence (D : Z) (sl : Slicer) (s : Z) (samples : list Z) :
  1 <= D <= 32 -> int16 s -> int16 (threshold sl) ->
  let T := (s + (8 * D - 1) * threshold sl) ÷ (8 * D) in
  let sl' := (sliceSample D sl s).1 in
  let bit := (sliceSample D sl s).2 in
  threshold sl' = T /\ int16 T /\
  (skipSamples sl - 1 < 1 -> bit = Some (s >? T) /\ skipSamples sl' = D) /\
  (1 <= skipSamples sl - 1 -> bit = None /\ skipSamples sl' = skipSamples sl - 1) /\
  (s = T -> bit <> Some true) /\
  forall i, (i < length samples)%nat ->
    exists o, slice D (slicer_start D) samples !! i = Some o /\
              (is_Some o <-> (Z.of_nat i + 1) mod D = 0).
Proof.
  intros HD Hs Ht. cbv zeta.
  pose proof (average_int16 D s (threshold sl) ltac:(lia) Hs Ht) as HT.
  unfold sliceSample. rewrite (to_i16_small _ HT).
  set (T := (s + (8 * D - 1) * threshold sl) ÷ (8 * D)) in *.
  assert (Hcad : forall i, (i < length samples)%nat ->
            exists o, slice D (slicer_start D) samples !! i = Some o /\
                      (is_Some o <-> (Z.of_nat i + 1) mod D = 0)).
  { intros i Hi.
    destruct (slice_cadence D samples (slicer_start D) i) as (o & Ho & Hiff);
      [cbn; lia | exact Hi |].
    exists o. split; [exact Ho|]. rewrite Hiff. cbn [slicer_start skipSamples].
    rewrite Z.sub_diag, Z.add_0_r. reflexivity. }
  destruct (Z.ltb_spec (skipSamples sl - 1) 1) as [Hlast|Hmore];
    cbn [threshold skipSamples fst snd].
  - split; [reflexivity|]. split; [exact HT|]. split; [auto|]. split; [lia|].
    split; [|exact Hcad].
    intros E. rewrite <- E, Z.gtb_ltb, Z.ltb_irrefl. discriminate.
  - split; [reflexivity|]. split; [exact HT|]. split; [lia|]. split; [auto|].
    split; [discriminate | exact Hcad].
Qed.

Lemma slicer_threshold_and_cadence_witness :
  (1 <= 32 <= 32 /\ int16 1000 /\ int16 (threshold (mkSlicer (-200) 1))) /\
  threshold (sliceSample 32 (mkSlicer (-200) 1) 1000).1
  = (1000 + (8 * 32 - 1) * (-200)) ÷ (8 * 32) /\
  (sliceSample 32 (mkSlicer (-200) 1) 1000).2
  = Some (1000 >? (1000 + (8 * 32 - 1) * (-200)) ÷ (8 * 32)) /\
  forall i, (i < length [1000; 1000; 1000])%nat ->
    exists o, slice 32 (slicer_start 32) [1000; 1000; 1000] !! i = Some o /\
              (is_Some o <-> (Z.of_nat i + 1) mod 32 = 0).
Proof.
  assert (H1 : 1 <= 32 <= 32) by lia.
  assert (H2 : int16 1000) by (unfold int16; lia).
  assert (H3 : int16 (threshold (mkSlicer (-200) 1))) by (unfold int16; cbn; lia).
  split; [auto|].
  destruct (slicer_threshold_and_cadence 32 (mkSlicer (-200) 1) 1000
              [1000; 1000; 1000] H1 H2 H3)
    as (HT & _ & Hbit & _ & _ & Hcad).
  split; [exact HT|]. split; [|exact Hcad].
  apply Hbit. cbn. lia.
Defined.

(** ** C7: the sync register while Locked and after *)

(** [processByte] neither reads nor writes the sync register. *)
Lemma processByte_syncBuffer s r b :
  processByte (set_syncBuffer s r) b
  = (fun '(s', k) => (set_syncBuffer s' r, k)) <$> processByte s b.
Proof.
  unfold processByte, buffer_store, buffer_prefix.
  destruct s as [v sy by_ buf ps le off cc rc sk ou]; fields.
  repeat match goal with
         | |- context [if ?c then _ else _] => destruct c
         end; reflexivity.
Qed.

(** Neither does a Locked step of [processBit]. *)
Lemma locked_step_syncBuffer s r bit :
  packetSync s = true ->
  processBit (set_syncBuffer s r) bit
  = (fun s' => set_syncBuffer s' r) <$> processBit s bit.
Proof.
  unfold processBit.
  destruct s as [v sy by_ buf ps le off cc rc sk ou]; fields. intros ->.
  destruct (sk - 1 <? 1); [|reflexivity].
  set (b := to_u8 (Z.lor (Z.shiftl by_ 1) (Z.b2z bit))).
  change (mkState v r b buf true le off cc rc 8 ou)
    with (set_syncBuffer (mkState v sy b buf true le off cc rc 8 ou) r).
  rewrite processByte_syncBuffer.
  destruct (processByte _ b) as [[s1 k]|]; [|reflexivity].
  destruct s1; reflexivity.
Qed.

Lemma locked_step_keeps_syncBuffer s bit s' :
  packetSync s = true -> processBit s bit = Some s' -> syncBuffer s' = syncBuffer s.
Proof.
  intros Hl Hstep.
  pose proof (locked_step_syncBuffer s (syncBuffer s) bit Hl) as E.
  replace (set_syncBuffer s (syncBuffer s)) with s in E by (destruct s; reflexivity).
  rewrite Hstep in E. injection E as E. rewrite E. destruct s'; reflexivity.
Qed.

(** As long as the decoder was Locked before each bit, the register is
    what it was at the start. *)
Lemma locked_run_keeps_syncBuffer bits s s' :
  packetSync s = true -> run s bits = Some s' ->
  (forall n sn, (n < length bits)%nat -> run s (take n bits) = Some sn ->
                packetSync sn = true) ->
  syncBuffer s' = syncBuffer s.
Proof.
  revert s. induction bits as [|bit bits IH]; intros s Hl Hrun Hall.
  - injection Hrun as <-. reflexivity.
  - cbn [run] in Hrun. destruct (processBit s bit) as [s1|] eqn:E1; [|discriminate].
    cbn [mbind option_bind] in Hrun.
    destruct bits as [|bit2 bits].
    + injection Hrun as <-. exact (locked_step_keeps_syncBuffer s bit s1 Hl E1).
    + rewrite (IH s1); [exact (locked_step_keeps_syncBuffer s bit s1 Hl E1) | | exact Hrun |].
      * apply (Hall 1%nat s1); [cbn [length]; lia|].
        cbn [take run]. rewrite E1. reflexivity.
      * intros n sn Hn Hsn. apply (Hall (S n) sn); [cbn [length] in *; lia|].
        cbn [take run]. rewrite E1. exact Hsn.
Qed.

(** C7, as the program has it.  While Locked the sync register is neither
    updated nor compared: a Locked step gives the same result whatever the
    register holds, and leaves it as it is.  The register is not cleared
    on the way back to Searching either: after any run during which the
    decoder was Locked before each bit, it holds what it held at the
    start of the run, that is the word matched at the lock, and the next
    bits are shifted into that word. *)
Theorem locked_ignores_sync_register (s : State) (bits : list bool) :
  packetSync s = true ->
  (forall r bit,
     processBit (set_syncBuffer s r) bit
     = (fun s' => set_syncBuffer s' r) <$> processBit s bit) /\
  (forall s',
     run s bits = Some s' ->
     (forall n sn, (n < length bits)%nat -> run s (take n bits) = Some sn ->
                   packetSync sn = true) ->
     syncBuffer s' = syncBuffer s /\
     forall bit s'', packetSync s' = false -> processBit s' bit = Some s'' ->
       syncBuffer s'' = sync_shift (syncBuffer s) bit).
Proof.
  intros Hl. split.
  - intros r bit. exact (locked_step_syncBuffer s r bit Hl).
  - intros s' Hrun Hall.
    pose proof (locked_run_keeps_syncBuffer bits s s' Hl Hrun Hall) as Hkeep.
    split; [exact Hkeep|].
    intros bit s'' Hs' Hstep. rewrite <- Hkeep.
    destruct (is_sync (sync_shift (syncBuffer s') bit)) eqn:Hhit.
    + destruct (searching_hit s' bit Hs' Hhit) as (s1 & E & _ & _ & _ & Hsy & _).
      congruence.
    + rewrite (searching_miss s' bit Hs' Hhit) in Hstep. injection Hstep as <-.
      destruct s'; reflexivity.
Qed.

Lemma locked_ignores_sync_register_witness :
  packetSync first_byte_state = true /\
  exists s', run first_byte_state (bits_of_byte 255) = Some s' /\
             packetSync s' = false /\ syncBuffer s' = SYNC_WORD.
Proof.
  assert (H : packetSync first_byte_state = true) by reflexivity.
  split; [exact H|].
  destruct (run first_byte_state (bits_of_byte 255)) as [s'|] eqn:E;
    [|vm_compute in E; discriminate].
  exists s'. split; [reflexivity|].
  split; [vm_compute in E; injection E as <-; reflexivity|].
  apply (proj2 (locked_ignores_sync_register first_byte_state (bits_of_byte 255) H)
               s' E).
  intros n sn Hn Hsn.
  do 8 (destruct n as [|n]; [vm_compute in Hsn; injection Hsn as <-; reflexivity|]).
  cbn [length bits_of_byte] in Hn. lia.
Defined.

(** The claim C7 fails on its last part: the contents left in the register
    do take part in the next match.  After the lock on the sync word and
    the rejected length byte 255 the decoder is in Searching with the sync
    word still in the register, and the fifteen last bits of the sync word
    are enough for a new lock; with the complement of the sync word left in
    the register the same fifteen bits give no lock. *)
Lemma sync_register_not_fresh_counterexample :
  (packetSync <$> run (initial false) (sync_bits ++ bits_of_byte 255)) = Some false /\
  (syncBuffer <$> run (initial false) (sync_bits ++ bits_of_byte 255)) = Some SYNC_WORD /\
  (packetSync <$> run (initial false) (sync_bits ++ bits_of_byte 255 ++ tail sync_bits))
  = Some true /\
  (packetSync <$> run (initial false) ((negb <$> sync_bits) ++ bits_of_byte 255))
  = Some false /\
  (packetSync <$> run (initial false)
                      ((negb <$> sync_bits) ++ bits_of_byte 255 ++ tail sync_bits))
  = Some false.
Proof. vm_compute. auto 10. Qed.

(** ** C8: one flipped payload bit *)

Lemma flip_at_changes i bits : (i < length bits)%nat -> flip_at i bits <> bits.
Proof.
  revert i. induction bits as [|b bits IH]; intros i Hi; [cbn in Hi; lia|].
  destruct i as [|i]; cbn [flip_at].
  - intros [= E]. destruct b; discriminate.
  - intros [= E]. apply (IH i); [cbn in Hi; lia | exact E].
Qed.

Lemma flip_at_app_l i bits1 bits2 :
  (i < length bits1)%nat -> flip_at i (bits1 ++ bits2) = flip_at i bits1 ++ bits2.
Proof.
  revert i. induction bits1 as [|b bits1 IH]; intros i Hi; [cbn in Hi; lia|].
  destruct i as [|i]; cbn [flip_at app]; [reflexivity|].
  rewrite IH by (cbn in Hi; lia). reflexivity.
Qed.

Lemma flip_at_app_r i bits1 bits2 :
  flip_at (length bits1 + i) (bits1 ++ bits2) = bits1 ++ flip_at i bits2.
Proof.
  induction bits1 as [|b bits1 IH]; [reflexivity|].
  cbn [length Nat.add flip_at app]. rewrite IH. reflexivity.
Qed.

(** Eight bits are the bits of the byte that the decoder packs from
    them. *)
Lemma bits_of_packed_byte t7 t6 t5 t4 t3 t2 t1 t0 :
  bits_of_byte (byte_of_bits [t7; t6; t5; t4; t3; t2; t1; t0])
  = [t7; t6; t5; t4; t3; t2; t1; t0].
Proof. destruct t7, t6, t5, t4, t3, t2, t1, t0; reflexivity. Qed.

Lemma flip_byte b i :
  (i < 8)%nat ->
  exists b', flip_at i (bits_of_byte b) = bits_of_byte b' /\ u8 b' /\ b' <> b.
Proof.
  intros Hi. exists (byte_of_bits (flip_at i (bits_of_byte b))).
  assert (E : bits_of_byte (byte_of_bits (flip_at i (bits_of_byte b)))
              = flip_at i (bits_of_byte b)).
  { unfold bits_of_byte at 2 3.
    do 8 (destruct i as [|i]; [apply bits_of_packed_byte|]). lia. }
  split; [symmetry; exact E|]. split.
  - unfold bits_of_byte.
    do 8 (destruct i as [|i]; [apply pack_range|]). lia.
  - intros Eb. rewrite Eb in E.
    exact (flip_at_changes i (bits_of_byte b) Hi (eq_sym E)).
Qed.

Lemma flip_payload P i :
  (i < 8 * length P)%nat ->
  exists pre b b' post,
    P = pre ++ b :: post /\
    flip_at i (bits_of_bytes P) = bits_of_bytes (pre ++ b' :: post) /\
    u8 b' /\ b' <> b.
Proof.
  revert i. induction P as [|b0 P IH]; intros i Hi; [cbn in Hi; lia|].
  rewrite bits_of_bytes_cons.
  destruct (Nat.lt_ge_cases i 8) as [Hlt|Hge].
  - destruct (flip_byte b0 i Hlt) as (b' & E & Hb' & Hne).
    exists [], b0, b', P. split; [reflexivity|].
    rewrite flip_at_app_l, E by exact Hlt. auto.
  - destruct (IH (i - 8)%nat) as (pre & b & b' & post & -> & E & Hb' & Hne);
      [cbn [length] in Hi; lia|].
    exists (b0 :: pre), b, b', post. split; [reflexivity|].
    replace i with (length (bits_of_byte b0) + (i - 8))%nat by (cbn [length bits_of_byte]; lia).
    rewrite flip_at_app_r, E. auto.
Qed.

(** C8.  For every payload [P] of 0 to 254 bytes and every position [i]
    of a bit of the payload, the decoder started in its initial state and
    fed the bitstream of the packet of [P] with that one bit inverted, the
    CRC bytes as sent for [P], runs to the end of the bitstream and has
    printed no packet. *)
Theorem flipped_payload_bit_is_rejected (v : bool) (P : list Z) (i : nat) :
  Forall u8 P -> (length P <= 254)%nat -> (i < 8 * length P)%nat ->
  exists s',
    run (initial v)
        (sync_bits ++ bits_of_byte (Z.of_nat (length P))
         ++ flip_at i (bits_of_bytes P) ++ bits_of_bytes (crc_bytes P))
    = Some s' /\
    packets (out s') = [] /\ packetSync s' = false.
Proof.
  intros HP Hlen Hi.
  destruct (flip_payload P i Hi) as (pre & b & b' & post & EP & Eflip & Hb' & Hne).
  destruct (run_lock sync_bits (initial v))
    as (s1 & E1 & Hl1 & Hk1 & Hr1 & _ & _ & Hb1 & Hp1); [reflexivity..|].
  destruct (crc_bytes_sent P) as (h & l & Ecrc & Hh & Hl & Hsent).
  assert (HP' : Forall u8 (pre ++ b' :: post)).
  { rewrite EP in HP. apply Forall_app in HP as [Hpre Hpost].
    apply Forall_cons in Hpost as [_ Hpost].
    apply Forall_app. split; [exact Hpre|]. apply Forall_cons. auto. }
  assert (Elen : length (pre ++ b' :: post) = length P)
    by (rewrite EP, !length_app; reflexivity).
  destruct (run_frame s1 (pre ++ b' :: post) h l)
    as (s2 & E2 & Hl2 & _ & Hp2);
    [unfold fresh_lock; rewrite Hb1; repeat split; try apply Hr1; auto
    | exact HP' | rewrite Elen; unfold MAX_PACKET_SIZE; lia | exact Hh | exact Hl |].
  exists s2. rewrite run_app, E1. cbn [mbind option_bind].
  rewrite Eflip, Ecrc, !app_assoc, <- bits_of_bytes_cons, <- Elen, E2.
  split; [reflexivity|]. split; [|exact Hl2].
  rewrite Hp2, Hp1.
  destruct (Z.eqb_spec (crc_of (Z.of_nat (length (pre ++ b' :: post)) :: pre ++ b' :: post))
                       (0xffff - (256 * h + l))) as [Ecrc'|_]; [|reflexivity].
  exfalso. rewrite Hsent, Elen in Ecrc'.
  assert (Hpost : Forall u8 post /\ u8 b).
  { rewrite EP in HP. apply Forall_app in HP as [_ Hpost].
    apply Forall_cons in Hpost. tauto. }
  apply (crc_of_one_byte (Z.of_nat (length P) :: pre) b b' post);
    [apply Hpost | apply Hpost | exact Hb' | congruence |].
  generalize dependent (Z.of_nat (length P)). intros n _ Ecrc'.
  rewrite EP in Ecrc'. cbn [app]. lia.
Qed.

Lemma flipped_payload_bit_is_rejected_witness :
  (Forall u8 [0x41; 0x42; 0x43] /\ (length [0x41; 0x42; 0x43] <= 254)%nat /\
   (13 < 8 * length [0x41; 0x42; 0x43])%nat) /\
  exists s',
    run (initial true)
        (sync_bits ++ bits_of_byte (Z.of_nat (length [0x41; 0x42; 0x43]))
         ++ flip_at 13 (bits_of_bytes [0x41; 0x42; 0x43])
         ++ bits_of_bytes (crc_bytes [0x41; 0x42; 0x43]))
    = Some s' /\
    packets (out s') = [] /\ packetSync s' = false.
Proof.
  assert (H1 : Forall u8 [0x41; 0x42; 0x43])
    by (repeat constructor; unfold u8; lia).
  assert (H2 : (length [0x41; 0x42; 0x43] <= 254)%nat) by (simpl; lia).
  assert (H3 : (13 < 8 * length [0x41; 0x42; 0x43])%nat) by (simpl; lia).
  split; [auto|].
  exact (flipped_payload_bit_is_rejected true [0x41; 0x42; 0x43] 13 H1 H2 H3).
Defined.

(** ** C9: the diagnostics do not change the decoding *)

Lemma packets_of_packets ps : packets (EvPacket <$> ps) = ps.
Proof. induction ps as [|p ps IH]; [reflexivity|]. cbn. now rewrite IH. Qed.

(** [processByte] on the erased state is the erasure of [processByte]. *)
Lemma processByte_erase s b :
  processByte (erase s) b = (fun '(s', k) => (erase s', k)) <$> processByte s b.
Proof.
  unfold processByte, buffer_store, buffer_prefix.
  destruct s as [v sy by_ buf ps le off cc rc sk ou]; fields.
  repeat match goal with
         | |- context [if ?c then _ else _] => destruct c
         end;
    cbn [fmap option_fmap option_map mbind option_bind]; fields;
    rewrite ?packets_app, ?packets_of_packets, ?fmap_app, ?app_nil_r;
    reflexivity.
Qed.

Lemma processBit_erase s bit :
  processBit (erase s) bit = erase <$> processBit s bit.
Proof.
  unfold processBit.
  destruct s as [v sy by_ buf ps le off cc rc sk ou]; fields.
  destruct ps.
  - destruct (sk - 1 <? 1); [|reflexivity].
    set (b := to_u8 (Z.lor (Z.shiftl by_ 1) (Z.b2z bit))).
    change (mkState false sy b buf true le off cc rc 8 (EvPacket <$> packets ou))
      with (erase (mkState v sy b buf true le off cc rc 8 ou)).
    rewrite processByte_erase.
    destruct (processByte _ b) as [[s1 k]|]; [|reflexivity].
    destruct s1; reflexivity.
  - destruct (_ || _), v; cbn [fmap option_fmap option_map]; fields;
      rewrite ?packets_app, ?app_nil_r; reflexivity.
Qed.

Lemma run_erase bits s : run (erase s) bits = erase <$> run s bits.
Proof.
  revert s. induction bits as [|bit bits IH]; intros s; [reflexivity|].
  cbn [run]. rewrite processBit_erase.
  destruct (processBit s bit) as [s1|]; [apply IH | reflexivity].
Qed.

(** C9.  For every state and every bitstream, the run with [verbose] set
    and the run with [verbose] clear go through the same states, up to the
    flag itself and the diagnostics printed, and print the same packets;
    one of them reads outside the array only if the other does.  This
    holds for the runs from the start of the program in particular, and
    with the same flag on both sides it is the determinism of a run, which
    the embedding has by being a function. *)
Theorem verbose_changes_no_decoding (s : State) (v1 v2 : bool) (bits : list bool) :
  erase <$> run (set_verbose s v1) bits = erase <$> run (set_verbose s v2) bits /\
  (packets ∘ out) <$> run (set_verbose s v1) bits
  = (packets ∘ out) <$> run (set_verbose s v2) bits /\
  (packets ∘ out) <$> run (initial v1) bits
  = (packets ∘ out) <$> run (initial v2) bits.
Proof.
  assert (Hrun : forall s1 s2, erase s1 = erase s2 ->
            erase <$> run s1 bits = erase <$> run s2 bits).
  { intros s1 s2 E. rewrite <- !run_erase, E. reflexivity. }
  assert (Hpk : forall (o1 o2 : option State), erase <$> o1 = erase <$> o2 ->
            (packets ∘ out) <$> o1 = (packets ∘ out) <$> o2).
  { intros [s1|] [s2|] E; try discriminate E; [|reflexivity].
    cbn [fmap option_fmap option_map] in *. f_equal.
    assert (E' : out (erase s1) = out (erase s2)) by congruence.
    apply (f_equal packets) in E'. destruct s1, s2; fields.
    rewrite !packets_of_packets in E'. exact E'. }
  assert (Hs : erase (set_verbose s v1) = erase (set_verbose s v2))
    by (destruct s; reflexivity).
  split; [exact (Hrun _ _ Hs)|]. split; [exact (Hpk _ _ (Hrun _ _ Hs))|].
  apply Hpk, Hrun. reflexivity.
Qed.

(** ** C10: the accesses to the array *)

(** [processByte] on a byte, from a state where the invariant holds with
    Locked: it returns, and the invariant holds again if it says to go
    on. *)
Lemma processByte_safe s b :
  length (buffer s) = Z.to_nat MAX_PACKET_SIZE -> assembling s ->
  0 <= b < 2 ^ 8 ->
  exists s' k, processByte s b = Some (s', k) /\
    length (buffer s') = Z.to_nat MAX_PACKET_SIZE /\
    (k = true -> assembling s').
Proof.
  unfold processByte, buffer_store, buffer_prefix, assembling, MAX_PACKET_SIZE.
  destruct s as [v sy by_ buf ps le off cc rc sk ou]; fields.
  intros Hbuf Hinv Hb. rewrite Hbuf.
  ztest; cbn [andb mbind option_bind]; try destruct v; fields;
    (eexists _, _; split; [reflexivity|]); fields;
    rewrite ?length_insert; (split; [exact Hbuf|]);
    intros; try discriminate; lia.
Qed.

Lemma processBit_safe s bit :
  safe s -> exists s', processBit s bit = Some s' /\ safe s'.
Proof.
  intros [Hbuf Hinv].
  destruct (packetSync s) eqn:Hl.
  - destruct (Z.lt_ge_cases 1 (skipBit s)) as [Hk|Hk].
    + rewrite processBit_within by assumption. eexists. split; [reflexivity|].
      unfold safe, assembling in *. destruct s; fields. auto.
    + rewrite processBit_eighth by (assumption || lia). unfold feedByte.
      destruct (processByte_safe (set_skipBit (set_byte s (pack (byte s) bit)) 8)
                                 (pack (byte s) bit))
        as (s1 & k & -> & Hbuf1 & Hinv1);
        [destruct s; exact Hbuf | destruct s; exact (Hinv eq_refl)
        | apply pack_range |].
      cbn [mbind option_bind]. eexists. split; [reflexivity|].
      unfold safe, assembling in *. destruct s1; fields. split; [exact Hbuf1|].
      intros ->. auto.
  - destruct (is_sync (sync_shift (syncBuffer s) bit)) eqn:Hhit.
    + destruct (searching_hit s bit Hl Hhit)
        as (s' & -> & _ & _ & (Hlen & Hoff & _) & _ & _ & Hb' & _).
      exists s'. split; [reflexivity|]. unfold safe, assembling.
      rewrite Hb'. auto.
    + rewrite searching_miss by assumption. eexists. split; [reflexivity|].
      unfold safe. destruct s; fields. split; [exact Hbuf|]. intros; congruence.
Qed.

Lemma run_safe bits s : safe s -> exists s', run s bits = Some s' /\ safe s'.
Proof.
  revert s. induction bits as [|bit bits IH]; intros s Hs; [eauto|].
  destruct (processBit_safe s bit Hs) as (s1 & E1 & Hs1).
  cbn [run]. rewrite E1. exact (IH s1 Hs1).
Qed.

(** Only the data branch of [processByte] writes the array, and it writes
    at [offset]. *)
Lemma processByte_writes s b s' k :
  processByte s b = Some (s', k) ->
  buffer s' = buffer s \/
  (len s <> -1 /\ offset s < len s /\
   0 <= offset s < Z.of_nat (length (buffer s)) /\
   buffer s' = <[Z.to_nat (offset s) := b]> (buffer s)).
Proof.
  unfold processByte, buffer_store, buffer_prefix.
  destruct s as [v sy by_ buf ps le off cc rc sk ou]; fields.
  ztest; cbn [andb mbind option_bind]; try destruct v; fields;
    intros [= <- <-]; fields;
    first [left; reflexivity | right; repeat split; auto; lia].
Qed.

(** C10.  From any Searching state whose array has its 255 bytes (the
    start of the program is one, and every lock is reached from one), the
    decoder runs to the end of every bitstream without an access outside
    the array.  In the state reached, if it is Locked with a length read,
    the offset is between 0 and length + 1, so that the next byte goes to
    the data branch or to one of the two CRC branches and never past them;
    if it would go to the data branch, then [0 <= offset < len <= 254],
    below the size of the array.  A byte that [processByte] writes is
    written at [offset], and no branch but the data branch writes the
    array. *)
Theorem buffer_is_never_overrun (s0 : State) (bits : list bool) :
  packetSync s0 = false -> length (buffer s0) = Z.to_nat MAX_PACKET_SIZE ->
  exists s, run s0 bits = Some s /\
    length (buffer s) = 255%nat /\
    (packetSync s = true -> len s <> -1 -> 0 <= offset s <= len s + 1) /\
    (packetSync s = true -> len s <> -1 -> offset s < len s ->
     0 <= offset s < len s /\ len s <= 254 /\
     offset s < Z.of_nat (length (buffer s))) /\
    (forall b s' k, processByte s b = Some (s', k) ->
       buffer s' = buffer s \/
       (len s <> -1 /\ offset s < len s /\
        0 <= offset s < Z.of_nat (length (buffer s)) /\
        buffer s' = <[Z.to_nat (offset s) := b]> (buffer s))).
Proof.
  intros Hs Hbuf.
  destruct (run_safe bits s0) as (s & E & Hlen & Hinv);
    [split; [exact Hbuf | congruence]|].
  exists s. split; [exact E|]. split; [exact Hlen|]. unfold assembling in Hinv.
  split; [|split].
  - intros Hl Hn. destruct (Hinv Hl) as [[? _]|[_ Hoff]]; [contradiction|exact Hoff].
  - intros Hl Hn Hlt. destruct (Hinv Hl) as [[? _]|[Hle Hoff]]; [contradiction|].
    rewrite Hlen. unfold MAX_PACKET_SIZE in *. lia.
  - intros b s' k. apply processByte_writes.
Qed.

Lemma buffer_is_never_overrun_witness :
  (packetSync (initial false) = false /\
   length (buffer (initial false)) = Z.to_nat MAX_PACKET_SIZE) /\
  exists s, run (initial false) (sync_bits ++ bits_of_bytes [254; 0x41]) = Some s /\
            length (buffer s) = 255%nat.
Proof.
  assert (H1 : packetSync (initial false) = false) by reflexivity.
  assert (H2 : length (buffer (initial false)) = Z.to_nat MAX_PACKET_SIZE)
    by reflexivity.
  split; [auto|].
  destruct (buffer_is_never_overrun (initial false)
              (sync_bits ++ bits_of_bytes [254; 0x41]) H1 H2)
    as (s & E & Hlen & _).
  exists s. auto.
Defined.

(** * Further properties of the decoder *)

(** ** Packets in sequence *)

Lemma first_lock_app reg bits1 bits2 :
  first_lock reg (bits1 ++ bits2)
  = match first_lock reg bits1 with
    | Some k => Some k
    | None => (fun k => (length bits1 + k)%nat)
                <$> first_lock (fold_left sync_shift bits1 reg) bits2
    end.
Proof.
  revert reg. induction bits1 as [|bit bits1 IH]; intros reg.
  - cbn [app first_lock fold_left length]. destruct (first_lock reg bits2); reflexivity.
  - cbn [app first_lock fold_left length]. destruct (is_sync _); [reflexivity|].
    rewrite IH. destruct (first_lock _ bits1); [reflexivity|].
    destruct (first_lock _ bits2); reflexivity.
Qed.

(** A Searching decoder on bits that give no match, then the bitstream
    of a packet. *)
Lemma run_quiet_encode s quiet P :
  packetSync s = false ->
  first_lock (syncBuffer s) (quiet ++ sync_bits) = Some (length quiet + 15)%nat ->
  length (buffer s) = Z.to_nat MAX_PACKET_SIZE ->
  Forall u8 P -> Z.of_nat (length P) <= MAX_PACKET_SIZE - 1 ->
  exists s', run s (quiet ++ encode P) = Some s' /\
    packetSync s' = false /\ is_sync (syncBuffer s') = true /\
    verbose s' = verbose s /\ length (buffer s') = length (buffer s) /\
    packets (out s') = packets (out s) ++ [P].
Proof.
  intros Hs Hfirst Hbuf HP Hmax.
  destruct (run_lock (quiet ++ sync_bits) s Hs)
    as (s1 & E1 & Hl1 & Hk1 & Hr1 & Hsy1 & Hv1 & Hb1 & Hp1).
  { rewrite Hfirst, length_app. f_equal. cbn [length sync_bits]. 
    change (length sync_bits) with 16%nat. lia. }
  destruct (crc_bytes_sent P) as (h & l & Ecrc & Hh & Hl & Hsent).
  destruct (run_frame s1 P h l) as (s2 & E2 & Hl2 & (Hv2 & Hsy2 & Hb2) & Hp2);
    [unfold fresh_lock; rewrite Hb1; auto | assumption..|].
  exists s2. unfold encode, frame_bits. rewrite app_assoc, run_app, E1, Ecrc.
  cbn [mbind option_bind]. rewrite E2.
  replace (crc_of (Z.of_nat (length P) :: P) =? 0xffff - (256 * h + l)) with true
    in Hp2 by (symmetry; apply Z.eqb_eq; lia).
  rewrite Hsy2, Hv2, Hb2, Hp2, Hb1, Hp1. auto 10.
Qed.

Lemma run_packets s Ps :
  packetSync s = false -> first_lock (syncBuffer s) sync_bits = Some 15%nat ->
  length (buffer s) = Z.to_nat MAX_PACKET_SIZE ->
  Forall (fun P => Forall u8 P /\ (length P <= 254)%nat) Ps ->
  exists s', run s (Ps ≫= encode) = Some s' /\
    packetSync s' = false /\ packets (out s') = packets (out s) ++ Ps.
Proof.
  revert s. induction Ps as [|P Ps IH]; intros s Hs Hfirst Hbuf HPs.
  - exists s. rewrite app_nil_r. auto.
  - apply Forall_cons in HPs as [[HP Hlen] HPs].
    destruct (run_encode s P Hs Hfirst Hbuf HP)
      as (s1 & E1 & Hl1 & Hsy1 & _ & Hb1 & Hp1); [unfold MAX_PACKET_SIZE; lia|].
    destruct (IH s1 Hl1) as (s2 & E2 & Hl2 & Hp2);
      [apply first_lock_after_sync, Hsy1 | congruence | exact HPs |].
    exists s2. cbn [mbind list_bind]. rewrite run_app, E1. cbn [mbind option_bind].
    split; [exact E2|]. split; [exact Hl2|].
    rewrite Hp2, Hp1, <- app_assoc. reflexivity.
Qed.

(** X1.  Packets sent back to back are all decoded, in order: from the
    start of the program, the bitstreams of any number of packets of 0 to
    254 bytes each, one after the other with nothing between them, make
    the decoder print exactly those payloads, in that order. *)
Theorem back_to_back_packets (v : bool) (Ps : list (list Z)) :
  Forall (fun P => Forall u8 P /\ (length P <= 254)%nat) Ps ->
  exists s', run (initial v) (Ps ≫= encode) = Some s' /\
             packets (out s') = Ps /\ packetSync s' = false.
Proof.
  intros HPs.
  destruct (run_packets (initial v) Ps) as (s' & E & Hl & Hp);
    [reflexivity | reflexivity | apply length_replicate | exact HPs |].
  exists s'. auto.
Qed.

Lemma back_to_back_packets_witness :
  Forall (fun P => Forall u8 P /\ (length P <= 254)%nat) [[0x41; 0x42]; []; [0x43]] /\
  exists s', run (initial false) ([[0x41; 0x42]; []; [0x43]] ≫= encode) = Some s' /\
             packets (out s') = [[0x41; 0x42]; []; [0x43]] /\ packetSync s' = false.
Proof.
  assert (H : Forall (fun P => Forall u8 P /\ (length P <= 254)%nat)
                     [[0x41; 0x42]; []; [0x43]])
    by (repeat constructor; unfold u8; cbn [length]; lia).
  split; [exact H|].
  exact (back_to_back_packets false [[0x41; 0x42]; []; [0x43]] H).
Defined.

(** X2.  A packet attempt that fails does not cost the next packet: from
    a fresh lock, after a length byte, as many bytes as it says and two
    CRC bytes of any values, the packet whose bitstream starts at the next
    bit is decoded; the attempt itself has printed its bytes if its CRC
    bytes were the complement of the CRC, and nothing if not. *)
Theorem failed_attempt_then_packet (s : State) (bs : list Z) (h l : Z) (P : list Z) :
  fresh_lock s -> is_sync (syncBuffer s) = true ->
  Forall u8 bs -> (length bs <= 254)%nat -> u8 h -> u8 l ->
  Forall u8 P -> (length P <= 254)%nat ->
  exists s',
    run s (bits_of_bytes (Z.of_nat (length bs) :: bs ++ [h; l]) ++ encode P)
    = Some s' /\
    packetSync s' = false /\
    packets (out s')
    = packets (out s)
      ++ (if crc_of (Z.of_nat (length bs) :: bs) =? 0xffff - (256 * h + l)
          then [bs] else [])
      ++ [P].
Proof.
  intros Hs Hsync Hbs Hlen Hh Hl HP HlenP.
  destruct (run_frame s bs h l Hs Hbs) as (s1 & E1 & Hl1 & (Hv1 & Hsy1 & Hb1) & Hp1);
    [unfold MAX_PACKET_SIZE; lia | exact Hh | exact Hl |].
  destruct (run_encode s1 P Hl1) as (s2 & E2 & Hl2 & _ & _ & _ & Hp2);
    [apply first_lock_after_sync; congruence | rewrite Hb1; apply Hs | exact HP
    | unfold MAX_PACKET_SIZE; lia |].
  exists s2. rewrite run_app.
  replace (bits_of_bytes (Z.of_nat (length bs) :: bs ++ [h; l]))
    with (bits_of_bytes (Z.of_nat (length bs) :: bs) ++ bits_of_bytes [h; l]).
  - rewrite E1. cbn [mbind option_bind]. rewrite Hp2, Hp1, <- app_assoc. auto.
  - unfold bits_of_bytes. rewrite <- concat_app, <- map_app. reflexivity.
Qed.

Lemma failed_attempt_then_packet_witness :
  (fresh_lock first_byte_state /\ is_sync (syncBuffer first_byte_state) = true /\
   Forall u8 [0x41; 0x42] /\ (length [0x41; 0x42] <= 254)%nat /\ u8 0 /\ u8 0 /\
   Forall u8 [0x43] /\ (length [0x43] <= 254)%nat) /\
  exists s',
    run first_byte_state
        (bits_of_bytes (Z.of_nat (length [0x41; 0x42]) :: [0x41; 0x42] ++ [0; 0])
         ++ encode [0x43])
    = Some s' /\
    packetSync s' = false /\
    packets (out s')
    = packets (out first_byte_state)
      ++ (if crc_of (Z.of_nat (length [0x41; 0x42]) :: [0x41; 0x42])
             =? 0xffff - (256 * 0 + 0)
          then [[0x41; 0x42]] else [])
      ++ [[0x43]].
Proof.
  assert (H1 : fresh_lock first_byte_state) by (repeat split; reflexivity).
  assert (H2 : is_sync (syncBuffer first_byte_state) = true) by reflexivity.
  assert (H3 : Forall u8 [0x41; 0x42]) by (repeat constructor; unfold u8; lia).
  assert (H4 : (length [0x41; 0x42] <= 254)%nat) by (simpl; lia).
  assert (H5 : u8 0) by (unfold u8; lia).
  assert (H6 : Forall u8 [0x43]) by (repeat constructor; unfold u8; lia).
  assert (H7 : (length [0x43] <= 254)%nat) by (simpl; lia).
  split; [auto 10|].
  exact (failed_attempt_then_packet first_byte_state [0x41; 0x42] 0 0 [0x43]
           H1 H2 H3 H4 H5 H5 H6 H7).
Defined.

(** ** Preamble *)

Lemma length_bits_of_bytes bs : length (bits_of_bytes bs) = (8 * length bs)%nat.
Proof.
  induction bs as [|b bs IH]; [reflexivity|].
  rewrite bits_of_bytes_cons, length_app, IH. cbn [length bits_of_byte]. lia.
Qed.

Lemma first_lock_preamble n :
  first_lock 0xAAAA (bits_of_bytes (replicate n PREAMBLE_BYTE) ++ sync_bits)
  = Some (8 * n + 15)%nat.
Proof.
  induction n as [|n IH]; [reflexivity|].
  cbn [replicate]. rewrite bits_of_bytes_cons, <- app_assoc, first_lock_app.
  change (first_lock 0xAAAA (bits_of_byte PREAMBLE_BYTE)) with (@None nat).
  change (fold_left sync_shift (bits_of_byte PREAMBLE_BYTE) 0xAAAA) with 0xAAAA.
  rewrite IH. cbn [fmap option_fmap option_map]. f_equal.
  change (length (bits_of_byte PREAMBLE_BYTE)) with 8%nat. lia.
Qed.

Lemma first_lock_preamble_start n :
  first_lock 0 (bits_of_bytes (replicate n PREAMBLE_BYTE) ++ sync_bits)
  = Some (8 * n + 15)%nat.
Proof.
  destruct n as [|[|n]]; [reflexivity | reflexivity |].
  cbn [replicate]. rewrite !bits_of_bytes_cons, <- !app_assoc, app_assoc, first_lock_app.
  change (first_lock 0 (bits_of_byte PREAMBLE_BYTE ++ bits_of_byte PREAMBLE_BYTE))
    with (@None nat).
  change (fold_left sync_shift
            (bits_of_byte PREAMBLE_BYTE ++ bits_of_byte PREAMBLE_BYTE) 0)
    with 0xAAAA.
  rewrite first_lock_preamble. cbn [fmap option_fmap option_map]. f_equal.
  change (length (bits_of_byte PREAMBLE_BYTE ++ bits_of_byte PREAMBLE_BYTE))
    with 16%nat. lia.
Qed.

(** X3.  A preamble does not disturb the lock: from the start of the
    program, any number of preamble bytes 0xAA (the bytes of [PREAMBLE])
    sent before the sync word give no match, and the packet that follows
    them is decoded as the one packet printed. *)
Theorem preamble_then_packet (v : bool) (n : nat) (P : list Z) :
  Forall u8 P -> (length P <= 254)%nat ->
  exists s',
    run (initial v) (bits_of_bytes (replicate n PREAMBLE_BYTE) ++ encode P)
    = Some s' /\
    packets (out s') = [P] /\ packetSync s' = false.
Proof.
  intros HP Hlen.
  destruct (run_quiet_encode (initial v) (bits_of_bytes (replicate n PREAMBLE_BYTE)) P)
    as (s' & E & Hl & _ & _ & _ & Hp);
    [reflexivity | | apply length_replicate | exact HP
    | unfold MAX_PACKET_SIZE; lia |].
  - change (syncBuffer (initial v)) with 0. rewrite first_lock_preamble_start.
    rewrite length_bits_of_bytes, length_replicate. reflexivity.
  - exists s'. auto.
Qed.

Lemma preamble_then_packet_witness :
  (Forall u8 [0x41; 0x42; 0x43] /\ (length [0x41; 0x42; 0x43] <= 254)%nat) /\
  exists s',
    run (initial false)
        (bits_of_bytes (replicate 5 PREAMBLE_BYTE) ++ encode [0x41; 0x42; 0x43])
    = Some s' /\
    packets (out s') = [[0x41; 0x42; 0x43]] /\ packetSync s' = false.
Proof.
  assert (H : Forall u8 [0x41; 0x42; 0x43])
    by (repeat constructor; unfold u8; lia).
  assert (L : (length [0x41; 0x42; 0x43] <= 254)%nat) by (simpl; lia).
  split; [auto|].
  exact (preamble_then_packet false 5 [0x41; 0x42; 0x43] H L).
Defined.

(** ** What is printed was received *)

Lemma bits_of_packed t7 t6 t5 t4 t3 t2 t1 t0 :
  bits_of_byte (pack (fold_left pack [t7; t6; t5; t4; t3; t2; t1] 0) t0)
  = [t7; t6; t5; t4; t3; t2; t1] ++ [t0].
Proof. destruct t7, t6, t5, t4, t3, t2, t1, t0; reflexivity. Qed.

Lemma pack_bits_of b x front t0 :
  u8 b -> bits_of_byte b = front ++ [t0] -> pack (fold_left pack front x) t0 = b.
Proof.
  intros Hb E. pose proof (pack_byte x b Hb) as Ep. unfold bits_of_byte in E.
  change ([Z.testbit b 7; Z.testbit b 6; Z.testbit b 5; Z.testbit b 4;
           Z.testbit b 3; Z.testbit b 2; Z.testbit b 1] ++ [Z.testbit b 0]
          = front ++ [t0]) in E.
  apply app_inj_tail in E as [<- <-]. exact Ep.
Qed.

(** Eight bits make the byte of which they are the bits, whatever the
    byte register held before. *)
Lemma pack_eight front t0 :
  length front = 7%nat ->
  exists b, u8 b /\ bits_of_byte b = front ++ [t0] /\
            forall x, pack (fold_left pack front x) t0 = b.
Proof.
  intros Hlen.
  destruct front as [|t7 [|t6 [|t5 [|t4 [|t3 [|t2 [|t1 [|]]]]]]]];
    try discriminate Hlen.
  exists (pack (fold_left pack [t7; t6; t5; t4; t3; t2; t1] 0) t0).
  split; [apply pack_range|]. split; [apply bits_of_packed|].
  intros x. apply pack_bits_of; [apply pack_range | apply bits_of_packed].
Qed.

(** The first CRC byte. *)
Lemma feed_crc_hi s n got b :
  in_data s n got -> Z.of_nat (length got) = n -> u8 b ->
  exists s', feedByte s b = Some s' /\ crc_wait s' n got b /\ carried s s' /\
             packets (out s') = packets (out s).
Proof.
  unfold in_data, crc_wait, carried, feedByte, processByte, u8.
  destruct s as [v sy by_ buf ps le off cc rc sk ou]; fields.
  intros (-> & -> & -> & -> & Htake & -> & -> & Hbuf) Hn Hb.
  ztest. cbn [mbind option_bind]. fields.
  eexists; split; [reflexivity|]. fields.
  rewrite Z.lor_0_l, to_u16_small by (apply shifted_byte_u16, Hb).
  rewrite Z.shiftl_mul_pow2 by lia.
  repeat split; auto; lia.
Qed.

(** The second CRC byte. *)
Lemma feed_crc_lo s n got hi b :
  crc_wait s n got hi -> n <= MAX_PACKET_SIZE - 1 -> u8 hi -> u8 b ->
  exists s', feedByte s b = Some s' /\ packetSync s' = false /\ carried s s' /\
    packets (out s')
    = packets (out s)
      ++ (if crc_of (n :: got) =? 0xffff - (256 * hi + b) then [got] else []).
Proof.
  unfold crc_wait, carried, feedByte, processByte, buffer_prefix, MAX_PACKET_SIZE, u8.
  destruct s as [v sy by_ buf ps le off cc rc sk ou]; fields.
  intros (-> & -> & -> & -> & Hn & Htake & -> & -> & Hbuf) Hmax Hhi Hb.
  assert (Eraw : to_u16 (0xffff - to_u16 (Z.lor (256 * hi) b))
                 = 0xffff - (256 * hi + b)).
  { rewrite <- (lor_bytes hi b) by exact Hb.
    rewrite Z.shiftl_mul_pow2 by lia. rewrite (Z.mul_comm hi).
    change (2 ^ 8) with 256.
    assert (0 <= Z.lor (256 * hi) b < 2 ^ 16)
      by (apply lor_u16; lia).
    rewrite (to_u16_small (Z.lor (256 * hi) b)) by assumption.
    apply to_u16_small. lia. }
  rewrite Eraw, Hbuf.
  destruct (Z.eqb_spec (crc_of (n :: got)) (0xffff - (256 * hi + b)));
    ztest; cbn [mbind option_bind]; try destruct v; fields;
    (eexists; split; [reflexivity|]); fields;
    rewrite ?packets_app, ?app_nil_r; cbn [packets];
    rewrite ?app_nil_r, <- ?Hn, ?Nat2Z.id, ?Htake; auto.
Qed.

Lemma bits_of_bytes_snoc bs b :
  bits_of_bytes (bs ++ [b]) = bits_of_bytes bs ++ bits_of_byte b.
Proof.
  induction bs as [|b0 bs IH].
  - cbn [app]. rewrite bits_of_bytes_cons.
    change (bits_of_bytes []) with (@nil bool). apply app_nil_r.
  - cbn [app]. rewrite !bits_of_bytes_cons, IH, app_assoc. reflexivity.
Qed.

Lemma crc_bytes_unique got hi lo :
  u8 hi -> u8 lo ->
  256 * hi + lo = 0xFFFF - crc_of (Z.of_nat (length got) :: got) ->
  crc_bytes got = [hi; lo].
Proof.
  intros Hhi Hlo E.
  destruct (crc_bytes_sent got) as (h & l & -> & Hh & Hl & Esent).
  unfold u8 in *. f_equal; [|f_equal]; lia.
Qed.

Lemma sound_output_grow seen more s s' :
  sound_output seen s -> packets (out s') = packets (out s) ->
  sound_output (seen ++ more) s'.
Proof.
  intros Hs E P HP. rewrite E in HP.
  destruct (Hs P HP) as (Hlen & Hu8 & pre & post & ->).
  split; [exact Hlen|]. split; [exact Hu8|].
  exists pre, (post ++ more). rewrite <- !app_assoc. reflexivity.
Qed.

Lemma at_byte_locked seen s :
  at_byte seen s ->
  packetSync s = true /\ skipBit s = 8 /\
  length (buffer s) = Z.to_nat MAX_PACKET_SIZE.
Proof.
  intros [H | [(n & got & pre & H & _) | (n & got & hi & pre & H & _)]].
  - destruct H as (? & ? & _ & ?). auto.
  - destruct H as (? & ? & _ & _ & _ & _ & _ & ?). auto.
  - destruct H as (? & ? & _ & _ & _ & _ & _ & _ & ?). auto.
Qed.

(** One byte delivered between two bytes: the invariant on the other
    side. *)
Lemma feed_at_byte before seen more s b :
  at_byte before s -> sound_output seen s ->
  seen ++ more = before ++ bits_of_byte b -> u8 b ->
  exists s', feedByte s b = Some s' /\
    length (buffer s') = Z.to_nat MAX_PACKET_SIZE /\
    sound_output (before ++ bits_of_byte b) s' /\
    (packetSync s' = true -> at_byte (before ++ bits_of_byte b) s').
Proof.
  intros Hat Hout Hseen Hb.
  assert (Hgrow : forall s', packets (out s') = packets (out s) ->
                             sound_output (before ++ bits_of_byte b) s').
  { intros s' Hp. rewrite <- Hseen. exact (sound_output_grow _ _ _ _ Hout Hp). }
  destruct Hat as [Hfresh | [(n & got & pre & Hin & Hn & Hgot & Ebefore)
                            | (n & got & hi & pre & Hw & Hn & Hhi & Hgot & Ebefore)]].
  - destruct (Z.le_gt_cases b (MAX_PACKET_SIZE - 1)) as [Hle|Hgt].
    + destruct (feed_length s b Hfresh Hb Hle) as (s' & E & Hin & (_ & _ & Hbuf) & Hp).
      exists s'. split; [exact E|]. split; [rewrite Hbuf; apply Hfresh|].
      split; [exact (Hgrow s' Hp)|].
      intros _. right. left. exists b, [], before.
      split; [exact Hin|]. cbn [length]. split; [unfold u8 in Hb; lia|].
      split; [constructor|].
      rewrite bits_of_bytes_cons. change (bits_of_bytes []) with (@nil bool).
      rewrite app_nil_r. reflexivity.
    + destruct (feed_length_any s b Hfresh Hb)
        as (s' & E & Hl & _ & _ & Hp & _ & Hbuf & _).
      exists s'. split; [exact E|]. split; [rewrite Hbuf; apply Hfresh|].
      split; [exact (Hgrow s' Hp)|].
      rewrite Hl. intros Hl'. apply Z.leb_le in Hl'. lia.
  - assert (Enew : before ++ bits_of_byte b
                   = pre ++ bits_of_bytes (n :: got ++ [b])).
    { rewrite Ebefore. change (n :: got ++ [b]) with ((n :: got) ++ [b]).
      rewrite bits_of_bytes_snoc, app_assoc. reflexivity. }
    destruct (Z.lt_ge_cases (Z.of_nat (length got)) n) as [Hlt|Hge].
    + destruct (feed_data s n got b Hin Hlt) as (s' & E & Hin' & (_ & _ & Hbuf) & Hp);
        [lia|].
      exists s'. split; [exact E|]. split; [rewrite Hbuf; apply Hin|].
      split; [exact (Hgrow s' Hp)|].
      intros _. right. left. exists n, (got ++ [b]), pre.
      split; [exact Hin'|]. rewrite length_app. cbn [length].
      split; [lia|]. split; [apply Forall_app; auto|]. exact Enew.
    + destruct (feed_crc_hi s n got b Hin) as (s' & E & Hw & (_ & _ & Hbuf) & Hp);
        [lia | exact Hb |].
      exists s'. split; [exact E|]. split; [rewrite Hbuf; apply Hin|].
      split; [exact (Hgrow s' Hp)|].
      intros _. right. right. exists n, got, b, pre.
      split; [exact Hw|]. split; [lia|]. auto.
  - destruct (feed_crc_lo s n got hi b Hw Hn Hhi Hb)
      as (s' & E & Hl & (_ & _ & Hbuf) & Hp).
    exists s'. split; [exact E|]. split; [rewrite Hbuf; apply Hw|].
    split; [|rewrite Hl; discriminate].
    intros P HP. rewrite Hp in HP. apply elem_of_app in HP as [HP|HP].
    + destruct (Hout P HP) as (Hlen & Hu8 & p1 & p2 & Ep).
      split; [exact Hlen|]. split; [exact Hu8|].
      exists p1, (p2 ++ more). rewrite <- Hseen, Ep, <- !app_assoc. reflexivity.
    + destruct (Z.eqb_spec (crc_of (n :: got)) (0xffff - (256 * hi + b)))
        as [Ecrc|_]; [|inversion HP].
      apply list_elem_of_singleton in HP as ->.
      assert (Hlen : Z.of_nat (length got) = n) by apply Hw.
      split; [unfold MAX_PACKET_SIZE in Hn; lia|]. split; [exact Hgot|].
      exists pre, []. rewrite app_nil_r, Ebefore, <- app_assoc. f_equal.
      unfold frame_bits.
      rewrite (crc_bytes_unique got hi b Hhi Hb) by (rewrite Hlen; lia).
      rewrite Hlen.
      change (n :: got ++ [hi]) with ((n :: got) ++ [hi]).
      rewrite bits_of_bytes_snoc, <- app_assoc. reflexivity.
Qed.

Lemma within_byte_nil s : skipBit s = 8 -> within_byte s [] = s.
Proof.
  unfold within_byte. destruct s; fields. intros ->. reflexivity.
Qed.

Lemma processBit_within_byte s part bit :
  packetSync s = true -> (length part < 7)%nat ->
  processBit (within_byte s part) bit = Some (within_byte s (part ++ [bit])).
Proof.
  intros Hl Hlen. rewrite processBit_within.
  - f_equal. unfold within_byte. rewrite fold_left_app, length_app.
    destruct s; fields. cbn [fold_left length]. f_equal. lia.
  - destruct s; exact Hl.
  - unfold within_byte. destruct s; fields. lia.
Qed.

Lemma processBit_last_of_byte s part bit :
  packetSync s = true -> length part = 7%nat ->
  processBit (within_byte s part) bit
  = feedByte s (pack (fold_left pack part (byte s)) bit).
Proof.
  intros Hl Hlen. rewrite processBit_eighth.
  - unfold within_byte. rewrite feedByte_frame. destruct s; reflexivity.
  - destruct s; exact Hl.
  - unfold within_byte. destruct s; fields. lia.
Qed.

(** One bit keeps the invariant. *)
Lemma processBit_decoding seen s bit :
  decoding seen s ->
  exists s', processBit s bit = Some s' /\ decoding (seen ++ [bit]) s'.
Proof.
  intros (Hout & Hbuf & Hlocked).
  destruct (packetSync s) eqn:Hl.
  - destruct (Hlocked eq_refl) as (before & part & sb & -> & Hpart & Hat & ->).
    destruct (at_byte_locked _ _ Hat) as (Hlsb & Hksb & Hbsb).
    assert (Houtsb : sound_output (before ++ part) sb)
      by (intros P HP; apply Hout; destruct sb; exact HP).
    destruct (Nat.lt_ge_cases (length part) 7) as [Hshort|Hfull].
    + rewrite processBit_within_byte by assumption.
      eexists. split; [reflexivity|]. split; [|split].
      * apply (sound_output_grow _ _ sb); [exact Houtsb|]. destruct sb; reflexivity.
      * destruct sb; exact Hbsb.
      * intros _. exists before, (part ++ [bit]), sb.
        rewrite app_assoc, length_app. cbn [length]. repeat split; auto; lia.
    + rewrite processBit_last_of_byte by (assumption || lia).
      destruct (pack_eight part bit ltac:(lia)) as (b & Hb & Ebits & Epack).
      rewrite Epack.
      destruct (feed_at_byte before (before ++ part) [bit] sb b Hat Houtsb)
        as (s' & E & Hbuf' & Hout' & Hat');
        [rewrite Ebits, app_assoc; reflexivity | exact Hb |].
      exists s'. split; [exact E|].
      rewrite <- app_assoc, <- Ebits.
      split; [exact Hout'|]. split; [exact Hbuf'|].
      intros Hl'. exists (before ++ bits_of_byte b), [], s'.
      rewrite app_nil_r. split; [reflexivity|]. split; [cbn [length]; lia|].
      split; [exact (Hat' Hl')|].
      symmetry. apply within_byte_nil. apply (at_byte_locked _ _ (Hat' Hl')).
  - destruct (is_sync (sync_shift (syncBuffer s) bit)) eqn:Hhit.
    + destruct (searching_hit s bit Hl Hhit)
        as (s' & E & Hl' & Hk' & Hr' & _ & _ & Hb' & _ & Hp').
      exists s'. split; [exact E|]. split; [|split].
      * exact (sound_output_grow _ _ _ _ Hout Hp').
      * rewrite Hb'. exact Hbuf.
      * intros _. exists (seen ++ [bit]), [], s'.
        rewrite app_nil_r. split; [reflexivity|]. split; [cbn [length]; lia|].
        split; [left; unfold fresh_lock; rewrite Hb'; auto|].
        symmetry. apply within_byte_nil, Hk'.
    + rewrite (searching_miss s bit Hl Hhit). eexists. split; [reflexivity|].
      split; [|split].
      * apply (sound_output_grow _ _ s); [exact Hout|]. destruct s; reflexivity.
      * destruct s; exact Hbuf.
      * destruct s; fields. congruence.
Qed.

Lemma run_decoding bits seen s :
  decoding seen s ->
  exists s', run s bits = Some s' /\ decoding (seen ++ bits) s'.
Proof.
  revert seen s. induction bits as [|bit bits IH]; intros seen s Hdec.
  - exists s. rewrite app_nil_r. auto.
  - destruct (processBit_decoding seen s bit Hdec) as (s1 & E1 & Hdec1).
    destruct (IH _ s1 Hdec1) as (s2 & E2 & Hdec2).
    exists s2. cbn [run]. rewrite E1. cbn [mbind option_bind].
    split; [exact E2|]. rewrite <- app_assoc in Hdec2. exact Hdec2.
Qed.

(** X4.  The decoder prints nothing it did not receive: on any bitstream,
    from the start of the program, every packet printed has at most 254
    bytes, all of them bytes, and the bitstream contains, in one piece,
    the bits of its length byte, of its bytes and of the two bytes that
    are the complement of the CRC16 of length and bytes. *)
Theorem printed_packets_were_received (v : bool) (bits : list bool) (s : State)
    (P : list Z) :
  run (initial v) bits = Some s -> P ∈ packets (out s) ->
  (length P <= 254)%nat /\ Forall u8 P /\
  exists pre post, bits = pre ++ frame_bits P ++ post.
Proof.
  intros Hrun HP.
  destruct (run_decoding bits [] (initial v)) as (s' & E & Hout & _).
  - split; [intros Q HQ; inversion HQ|]. split; [apply length_replicate|].
    discriminate.
  - rewrite Hrun in E. injection E as <-. exact (Hout P HP).
Qed.

Lemma printed_packets_were_received_witness :
  exists s, run (initial false) (true :: encode [0x41; 0x42] ++ [false; true]) = Some s /\
    [0x41; 0x42] ∈ packets (out s) /\
    exists pre post,
      true :: encode [0x41; 0x42] ++ [false; true]
      = pre ++ frame_bits [0x41; 0x42] ++ post.
Proof.
  destruct (run (initial false) (true :: encode [0x41; 0x42] ++ [false; true]))
    as [s|] eqn:E; [|vm_compute in E; discriminate].
  assert (HP : [0x41; 0x42] ∈ packets (out s)).
  { vm_compute in E. injection E as <-. apply list_elem_of_singleton. reflexivity. }
  exists s. split; [reflexivity|]. split; [exact HP|].
  apply (printed_packets_were_received false _ s [0x41; 0x42] E HP).
Defined.

(** ** Acceptance *)

(** X5.  A packet attempt is accepted exactly when its two CRC bytes are
    the right ones: from the start of the program, after the sync word, a
    length byte, that many bytes [bs] and two bytes [h], [l], the decoder
    is back in Searching and has printed [bs] if [h], [l] are the bytes
    of the complement of the CRC16 of length and bytes, and nothing in
    every other case. *)
Theorem attempt_accepted_iff_crc_bytes (v : bool) (bs : list Z) (h l : Z) :
  Forall u8 bs -> (length bs <= 254)%nat -> u8 h -> u8 l ->
  exists s',
    run (initial v) (sync_bits ++ bits_of_bytes (Z.of_nat (length bs) :: bs ++ [h; l]))
    = Some s' /\
    packetSync s' = false /\
    ([h; l] = crc_bytes bs -> packets (out s') = [bs]) /\
    ([h; l] <> crc_bytes bs -> packets (out s') = []).
Proof.
  intros Hbs Hlen Hh Hl.
  destruct (run_lock sync_bits (initial v))
    as (s1 & E1 & Hl1 & Hk1 & Hr1 & _ & _ & Hb1 & Hp1); [reflexivity..|].
  destruct (run_frame s1 bs h l) as (s2 & E2 & Hl2 & _ & Hp2);
    [unfold fresh_lock; rewrite Hb1; repeat split; try apply Hr1; auto
    | exact Hbs | unfold MAX_PACKET_SIZE; lia | exact Hh | exact Hl |].
  exists s2. rewrite run_app, E1. cbn [mbind option_bind].
  replace (bits_of_bytes (Z.of_nat (length bs) :: bs ++ [h; l]))
    with (bits_of_bytes (Z.of_nat (length bs) :: bs) ++ bits_of_bytes [h; l])
    by (unfold bits_of_bytes; rewrite <- concat_app, <- map_app; reflexivity).
  split; [exact E2|]. split; [exact Hl2|].
  rewrite Hp2, Hp1. cbn [packets initial out app].
  destruct (crc_bytes_sent bs) as (h0 & l0 & Ecrc & Hh0 & Hl0 & Esent).
  rewrite Ecrc.
  destruct (Z.eqb_spec (crc_of (Z.of_nat (length bs) :: bs)) (0xffff - (256 * h + l)))
    as [E|E].
  - split; [reflexivity|]. intros Hne. destruct Hne.
    unfold u8 in *. f_equal; [|f_equal]; lia.
  - split; [|reflexivity]. intros [= -> ->]. lia.
Qed.

Lemma attempt_accepted_iff_crc_bytes_witness :
  (Forall u8 [0x41; 0x42; 0x43] /\ (length [0x41; 0x42; 0x43] <= 254)%nat /\
   u8 0x53 /\ u8 0xA8) /\
  exists s',
    run (initial false)
        (sync_bits
         ++ bits_of_bytes (Z.of_nat (length [0x41; 0x42; 0x43])
                           :: [0x41; 0x42; 0x43] ++ [0x53; 0xA8]))
    = Some s' /\
    packets (out s') = [].
Proof.
  assert (H1 : Forall u8 [0x41; 0x42; 0x43])
    by (repeat constructor; unfold u8; lia).
  assert (H2 : (length [0x41; 0x42; 0x43] <= 254)%nat) by (simpl; lia).
  assert (H3 : u8 0x53) by (unfold u8; lia).
  assert (H4 : u8 0xA8) by (unfold u8; lia).
  split; [auto|].
  destruct (attempt_accepted_iff_crc_bytes false [0x41; 0x42; 0x43] 0x53 0xA8
              H1 H2 H3 H4) as (s' & E & _ & _ & Hno).
  exists s'. split; [exact E|]. apply Hno. vm_compute. discriminate.
Defined.

(** X6.  One wrong payload byte is always caught: if the bytes received
    differ from the payload [P] in exactly one byte, whatever its new
    value, and the CRC bytes are those sent for [P], nothing is
    printed. *)
Theorem corrupted_payload_byte_is_rejected (v : bool) (pre post : list Z)
    (b b' : Z) :
  Forall u8 (pre ++ b :: post) -> (length (pre ++ b :: post) <= 254)%nat ->
  u8 b' -> b' <> b ->
  exists s',
    run (initial v)
        (sync_bits
         ++ bits_of_bytes (Z.of_nat (length (pre ++ b :: post)) :: pre ++ b' :: post)
         ++ bits_of_bytes (crc_bytes (pre ++ b :: post)))
    = Some s' /\
    packets (out s') = [] /\ packetSync s' = false.
Proof.
  intros HP Hlen Hb' Hne.
  destruct (run_lock sync_bits (initial v))
    as (s1 & E1 & Hl1 & Hk1 & Hr1 & _ & _ & Hb1 & Hp1); [reflexivity..|].
  destruct (crc_bytes_sent (pre ++ b :: post)) as (h & l & Ecrc & Hh & Hl & Hsent).
  apply Forall_app in HP as [Hpre Hpost]. apply Forall_cons in Hpost as [Hb Hpost].
  assert (Elen : length (pre ++ b' :: post) = length (pre ++ b :: post))
    by (rewrite !length_app; reflexivity).
  destruct (run_frame s1 (pre ++ b' :: post) h l) as (s2 & E2 & Hl2 & _ & Hp2);
    [unfold fresh_lock; rewrite Hb1; repeat split; try apply Hr1; auto
    | apply Forall_app; split; [exact Hpre | apply Forall_cons; auto]
    | rewrite Elen; unfold MAX_PACKET_SIZE; lia | exact Hh | exact Hl |].
  exists s2. rewrite run_app, E1. cbn [mbind option_bind].
  rewrite Ecrc, <- Elen, E2.
  split; [reflexivity|]. split; [|exact Hl2].
  rewrite Hp2, Hp1.
  destruct (Z.eqb_spec (crc_of (Z.of_nat (length (pre ++ b' :: post)) :: pre ++ b' :: post))
                       (0xffff - (256 * h + l))) as [Ecrc'|_]; [|reflexivity].
  exfalso. rewrite Hsent, Elen in Ecrc'.
  apply (crc_of_one_byte (Z.of_nat (length (pre ++ b :: post)) :: pre) b b' post);
    [exact Hpost | exact Hb | exact Hb' | congruence |].
  cbn [app]. lia.
Qed.

Lemma corrupted_payload_byte_is_rejected_witness :
  (Forall u8 ([0x41] ++ 0x42 :: [0x43]) /\
   (length ([0x41] ++ 0x42 :: [0x43]) <= 254)%nat /\ u8 0xBD /\ 0xBD <> 0x42) /\
  exists s',
    run (initial false)
        (sync_bits
         ++ bits_of_bytes (Z.of_nat (length ([0x41] ++ 0x42 :: [0x43]))
                           :: [0x41] ++ 0xBD :: [0x43])
         ++ bits_of_bytes (crc_bytes ([0x41] ++ 0x42 :: [0x43])))
    = Some s' /\
    packets (out s') = [] /\ packetSync s' = false.
Proof.
  assert (H1 : Forall u8 ([0x41] ++ 0x42 :: [0x43]))
    by (repeat constructor; unfold u8; lia).
  assert (H2 : (length ([0x41] ++ 0x42 :: [0x43]) <= 254)%nat) by (simpl; lia).
  assert (H3 : u8 0xBD) by (unfold u8; lia).
  assert (H4 : 0xBD <> 0x42) by lia.
  split; [auto|].
  exact (corrupted_payload_byte_is_rejected false [0x41] [0x43] 0x42 0xBD H1 H2 H3 H4).
Defined.

(** * Further properties of the command line and of the slicer *)

(** ** The sample rate *)

(** X7.  The option [-s] keeps the value of [atoi] modulo 2^16 and
    accepts it exactly when that is 2000 times a factor between 2 and 32;
    the downsample factor is then that factor, and the default rate gives
    32.  A value of at least 65536 is judged by its remainder, so 69536
    passes as 4000. *)
Theorem sample_rate_check (arg : Z) :
  match set_sampleRate arg with
  | Some rate =>
      rate = arg mod 2 ^ 16 /\
      2 <= downSamples_of rate <= 32 /\ rate = 2000 * downSamples_of rate
  | None => forall D, 2 <= D -> arg mod 2 ^ 16 <> 2000 * D
  end /\
  set_sampleRate default_sampleRate = Some 64000 /\
  downSamples_of default_sampleRate = 32 /\
  set_sampleRate 69536 = Some 4000.
Proof.
  split; [|repeat split; reflexivity].
  unfold set_sampleRate, downSamples_of, BIT_RATE, to_u16.
  pose proof (Z.mod_pos_bound arg (2 ^ 16) ltac:(lia)) as Hr.
  set (r := arg mod 2 ^ 16) in *.
  rewrite Z.rem_mod_nonneg by lia.
  destruct (Z.ltb_spec r (2 * 2000)) as [Hlow|Hok]; cbn [orb].
  - intros D HD E. lia.
  - destruct (Z.eqb_spec (r mod 2000) 0) as [Hmul|Hrem]; cbn [negb].
    + split; [reflexivity|]. rewrite Z.quot_div_nonneg by lia.
      pose proof (Z.div_mod r 2000 ltac:(lia)). lia.
    + intros D HD E. apply Hrem. rewrite E, Z.mul_comm. apply Z.mod_mul. lia.
Qed.

(** ** A sample from two bytes *)

(** X8.  Two input bytes make the 16-bit two's complement number of which
    they are the low and the high byte: the sample is a 16-bit signed
    value congruent to [lo + 256 hi], and the two bytes of a 16-bit signed
    value give that value back. *)
Theorem read_sample_round_trip (lo hi x : Z) :
  u8 lo -> u8 hi -> int16 x ->
  int16 (read_sample lo hi) /\
  read_sample lo hi mod 2 ^ 16 = lo + 256 * hi /\
  read_sample (x mod 2 ^ 8) ((x / 2 ^ 8) mod 2 ^ 8) = x.
Proof.
  unfold u8, int16, read_sample, to_i16. intros Hlo Hhi Hx.
  rewrite !Z.lor_comm with (b := Z.shiftl _ 8).
  rewrite !lor_bytes by (unfold u8; try apply Z.mod_pos_bound; lia).
  split; [|split].
  - pose proof (Z.mod_pos_bound (256 * hi + lo + 2 ^ 15) (2 ^ 16) ltac:(lia)). lia.
  - Z.div_mod_to_equations. lia.
  - Z.div_mod_to_equations. lia.
Qed.

Lemma read_sample_round_trip_witness :
  (u8 0x2E /\ u8 0xFB /\ int16 (-1234)) /\
  int16 (read_sample 0x2E 0xFB) /\
  read_sample 0x2E 0xFB mod 2 ^ 16 = 0x2E + 256 * 0xFB /\
  read_sample (-1234 mod 2 ^ 8) ((-1234 / 2 ^ 8) mod 2 ^ 8) = -1234.
Proof.
  assert (H1 : u8 0x2E) by (unfold u8; lia).
  assert (H2 : u8 0xFB) by (unfold u8; lia).
  assert (H3 : int16 (-1234)) by (unfold int16; lia).
  split; [auto|].
  exact (read_sample_round_trip 0x2E 0xFB (-1234) H1 H2 H3).
Defined.

(** ** The threshold *)

Lemma average_between d s t :
  1 <= d ->
  Z.min s t <= (s + (8 * d - 1) * t) ÷ (8 * d) <= Z.max s t.
Proof.
  intros Hd.
  assert (Hq : (Z.min s t * (8 * d)) ÷ (8 * d) <= (s + (8 * d - 1) * t) ÷ (8 * d)
               <= (Z.max s t * (8 * d)) ÷ (8 * d))
    by (split; apply Z.quot_le_mono; nia).
  rewrite !Z.quot_mul in Hq by lia. exact Hq.
Qed.

Lemma sliceSample_bounds D sl x lo hi :
  1 <= D -> - 2 ^ 15 <= lo -> hi < 2 ^ 15 ->
  lo <= threshold sl <= hi -> lo <= x <= hi ->
  1 <= skipSamples sl <= D ->
  lo <= threshold (sliceSample D sl x).1 <= hi /\
  Z.min x (threshold sl) <= threshold (sliceSample D sl x).1 <= Z.max x (threshold sl) /\
  1 <= skipSamples (sliceSample D sl x).1 <= D.
Proof.
  intros HD Hlo Hhi Ht Hx Hk.
  pose proof (average_between D x (threshold sl) HD) as Hb.
  unfold sliceSample. rewrite to_i16_small by (unfold int16; lia).
  destruct (Z.ltb_spec (skipSamples sl - 1) 1); cbn [fst threshold skipSamples]; lia.
Qed.

(** X9.  The threshold follows the samples and never leaves them: each
    sample moves it to a value between the sample and the old threshold
    (both included), so a sample equal to the threshold leaves it as it
    is; and if the threshold at the start and all the samples are in a
    range [lo .. hi] of 16-bit values, so is the threshold after any
    number of samples (the 16-bit store never wraps), while the countdown
    stays between 1 and [D]. *)
Theorem threshold_stays_in_range (D : Z) (sl : Slicer) (samples : list Z) (lo hi : Z) :
  1 <= D -> - 2 ^ 15 <= lo -> hi < 2 ^ 15 ->
  lo <= threshold sl <= hi -> 1 <= skipSamples sl <= D ->
  Forall (fun x => lo <= x <= hi) samples ->
  lo <= threshold (slicer_after D sl samples) <= hi /\
  1 <= skipSamples (slicer_after D sl samples) <= D /\
  forall x, lo <= x <= hi ->
    Z.min x (threshold sl) <= threshold (sliceSample D sl x).1
                           <= Z.max x (threshold sl).
Proof.
  intros HD Hlo Hhi Ht Hk Hall. split; [|split].
  - revert sl Ht Hk. induction Hall as [|x samples Hx _ IH]; intros sl Ht Hk;
      [exact Ht|].
    cbn [slicer_after fold_left].
    destruct (sliceSample_bounds D sl x lo hi) as (H1 & _ & H2); auto.
    apply IH; assumption.
  - revert sl Ht Hk. induction Hall as [|x samples Hx _ IH]; intros sl Ht Hk;
      [exact Hk|].
    cbn [slicer_after fold_left].
    destruct (sliceSample_bounds D sl x lo hi) as (H1 & _ & H2); auto.
    apply IH; assumption.
  - intros x Hx. apply (sliceSample_bounds D sl x lo hi); auto.
Qed.

Lemma threshold_stays_in_range_witness :
  (1 <= 32 /\ - 2 ^ 15 <= -6000 /\ 6000 < 2 ^ 15 /\
   -6000 <= threshold (slicer_start 32) <= 6000 /\
   1 <= skipSamples (slicer_start 32) <= 32 /\
   Forall (fun x => -6000 <= x <= 6000) [6000; -6000; 5000]) /\
  -6000 <= threshold (slicer_after 32 (slicer_start 32) [6000; -6000; 5000]) <= 6000.
Proof.
  assert (H1 : 1 <= 32) by lia.
  assert (H2 : - 2 ^ 15 <= -6000) by lia.
  assert (H3 : 6000 < 2 ^ 15) by lia.
  assert (H4 : -6000 <= threshold (slicer_start 32) <= 6000) by (cbn; lia).
  assert (H5 : 1 <= skipSamples (slicer_start 32) <= 32) by (cbn; lia).
  assert (H6 : Forall (fun x => -6000 <= x <= 6000) [6000; -6000; 5000])
    by (repeat constructor; lia).
  split; [auto 10|].
  exact (proj1 (threshold_stays_in_range 32 (slicer_start 32) [6000; -6000; 5000]
                  (-6000) 6000 H1 H2 H3 H4 H5 H6)).
Defined.

(** ** The sample loop *)

Lemma slice_app D sl samples1 samples2 :
  slice D sl (samples1 ++ samples2)
  = slice D sl samples1 ++ slice D (slicer_after D sl samples1) samples2.
Proof.
  revert sl. induction samples1 as [|x samples1 IH]; intros sl; [reflexivity|].
  cbn [app slice slicer_after fold_left].
  destruct (sliceSample D sl x) as [sl' bit] eqn:E. cbn [fst].
  rewrite IH. reflexivity.
Qed.

Lemma slicer_after_app D sl samples1 samples2 :
  slicer_after D sl (samples1 ++ samples2)
  = slicer_after D (slicer_after D sl samples1) samples2.
Proof. unfold slicer_after. apply fold_left_app. Qed.

Lemma processSamples_run D sl s samples :
  processSamples D (sl, s) samples
  = (fun s' => (slicer_after D sl samples, s'))
      <$> run s (decided (slice D sl samples)).
Proof.
  revert sl s. induction samples as [|x samples IH]; intros sl s; [reflexivity|].
  cbn [processSamples slice slicer_after fold_left]. unfold processSample.
  cbn [fst snd].
  destruct (sliceSample D sl x) as [sl' [bit|]] eqn:E; cbn [fst].
  - change (decided (Some bit :: slice D sl' samples))
      with (bit :: decided (slice D sl' samples)).
    cbn [run]. destruct (processBit s bit) as [s1|]; [|reflexivity].
    cbn [mbind option_bind]. apply IH.
  - change (decided (None :: slice D sl' samples))
      with (decided (slice D sl' samples)).
    cbn [mbind option_bind]. apply IH.
Qed.

(** X10.  The sample loop is the slicer followed by the decoder: running
    the loop over a list of samples gives the slicer that the samples
    alone determine, and the decoder state that [processBit] reaches on
    the bits the slicer decides, in order; the decoder has no part in
    what the slicer does. *)
Theorem sample_loop_is_slicer_then_decoder (D : Z) (sl : Slicer) (s : State)
    (samples : list Z) :
  processSamples D (sl, s) samples
  = (fun s' => (slicer_after D sl samples, s'))
      <$> run s (decided (slice D sl samples)).
Proof. apply processSamples_run. Qed.

(** ** A square wave through the slicer *)

(** The threshold stays strictly below the amplitude. *)
Lemma average_below D A x t :
  1 <= D -> 1 <= A -> x = A \/ x = - A -> - A <= t < A ->
  - A <= (x + (8 * D - 1) * t) ÷ (8 * D) < A.
Proof.
  intros HD HA Hx Ht.
  pose proof (average_between D x t HD) as Hb.
  split; [lia|].
  destruct Hx as [->| ->]; [|lia].
  destruct (Z.lt_ge_cases (A + (8 * D - 1) * t) 0) as [Hneg|Hpos].
  - assert ((A + (8 * D - 1) * t) ÷ (8 * D) <= 0 ÷ (8 * D))
      by (apply Z.quot_le_mono; lia).
    rewrite Z.quot_0_l in H by lia. lia.
  - apply Z.quot_lt_upper_bound; [exact Hpos | lia | nia].
Qed.

Lemma decided_None outs : decided (None :: outs) = decided outs.
Proof. reflexivity. Qed.

Lemma slice_cons D sl x samples :
  slice D sl (x :: samples)
  = (sliceSample D sl x).2 :: slice D (sliceSample D sl x).1 samples.
Proof. cbn [slice]. destruct (sliceSample D sl x); reflexivity. Qed.

Lemma slicer_after_cons D sl x samples :
  slicer_after D sl (x :: samples) = slicer_after D (sliceSample D sl x).1 samples.
Proof. reflexivity. Qed.

(** One sample of a square wave: the new threshold, and a bit when the
    countdown is at 1. *)
Lemma sliceSample_square D A x sl :
  1 <= D <= 32 -> 1 <= A < 2 ^ 15 -> x = A \/ x = - A ->
  - A <= threshold sl < A ->
  exists T, - A <= T < A /\
    sliceSample D sl x
    = if skipSamples sl - 1 <? 1
      then (mkSlicer T D, Some (x >? T))
      else (mkSlicer T (skipSamples sl - 1), None).
Proof.
  intros HD HA Hx Ht.
  pose proof (average_below D A x (threshold sl) ltac:(lia) ltac:(lia) Hx Ht) as Hb.
  exists ((x + (8 * D - 1) * threshold sl) ÷ (8 * D)). split; [exact Hb|].
  unfold sliceSample. rewrite to_i16_small by (unfold int16; lia). reflexivity.
Qed.

(** [k] samples of a bit, short of the one that decides. *)
Lemma slice_hold D A x k sl :
  1 <= D <= 32 -> 1 <= A < 2 ^ 15 -> x = A \/ x = - A ->
  - A <= threshold sl < A -> Z.of_nat k < skipSamples sl ->
  decided (slice D sl (replicate k x)) = [] /\
  - A <= threshold (slicer_after D sl (replicate k x)) < A /\
  skipSamples (slicer_after D sl (replicate k x)) = skipSamples sl - Z.of_nat k.
Proof.
  intros HD HA Hx. revert sl. induction k as [|k IH]; intros sl Ht Hk.
  - cbn [replicate]. change (slicer_after D sl []) with sl.
    split; [reflexivity|]. split; [exact Ht|lia].
  - cbn [replicate]. rewrite slice_cons, slicer_after_cons.
    destruct (sliceSample_square D A x sl HD HA Hx Ht) as (T & HT & ->).
    destruct (Z.ltb_spec (skipSamples sl - 1) 1) as [Hlast|Hmore]; [lia|].
    cbn [fst snd].
    destruct (IH (mkSlicer T (skipSamples sl - 1))) as (E & Ht' & Hk');
      [exact HT | cbn [skipSamples]; lia |].
    rewrite decided_None.
    cbn [skipSamples] in Hk'. rewrite Hk'. split; [exact E|]. split; [exact Ht'|lia].
Qed.

(** The [D] samples of one bit. *)
Lemma slice_symbol D A (bit : bool) sl :
  1 <= D <= 32 -> 1 <= A < 2 ^ 15 ->
  - A <= threshold sl < A -> skipSamples sl = D ->
  let samples := replicate (Z.to_nat D) (if bit then A else - A) in
  decided (slice D sl samples) = [bit] /\
  - A <= threshold (slicer_after D sl samples) < A /\
  skipSamples (slicer_after D sl samples) = D.
Proof.
  intros HD HA Ht Hk samples. subst samples.
  set (x := if bit then A else - A).
  assert (Hx : x = A \/ x = - A) by (destruct bit; auto).
  replace (Z.to_nat D) with (Z.to_nat (D - 1) + 1)%nat by lia.
  rewrite replicate_add, slice_app, slicer_after_app.
  destruct (slice_hold D A x (Z.to_nat (D - 1)) sl HD HA Hx Ht) as (E & Ht' & Hk');
    [lia|].
  set (sl1 := slicer_after D sl (replicate (Z.to_nat (D - 1)) x)) in *.
  unfold decided in *. rewrite omap_app, E. cbn [app replicate].
  rewrite slice_cons, slicer_after_cons.
  destruct (sliceSample_square D A x sl1 HD HA Hx Ht') as (T & HT & ->).
  destruct (Z.ltb_spec (skipSamples sl1 - 1) 1) as [Hlast|Hmore]; [|lia].
  cbn [fst snd]. change (slicer_after D (mkSlicer T D) []) with (mkSlicer T D).
  cbn [slice omap list_omap id threshold skipSamples].
  split; [|split; [exact HT | reflexivity]].
  f_equal. subst x. destruct bit.
  - apply Z.gtb_lt. lia.
  - rewrite Z.gtb_ltb. apply Z.ltb_ge. lia.
Qed.

Lemma slice_modulate D A bits sl :
  1 <= D <= 32 -> 1 <= A < 2 ^ 15 ->
  - A <= threshold sl < A -> skipSamples sl = D ->
  decided (slice D sl (modulate D A bits)) = bits /\
  - A <= threshold (slicer_after D sl (modulate D A bits)) < A /\
  skipSamples (slicer_after D sl (modulate D A bits)) = D.
Proof.
  intros HD HA. revert sl. induction bits as [|bit bits IH]; intros sl Ht Hk;
    [auto|].
  unfold modulate. cbn [mbind list_bind]. fold (modulate D A bits).
  destruct (slice_symbol D A bit sl HD HA Ht Hk) as (E & Ht' & Hk').
  destruct (IH _ Ht' Hk') as (E2 & Ht2 & Hk2).
  rewrite slice_app, slicer_after_app. unfold decided in *.
  rewrite omap_app, E, E2. auto.
Qed.

(** X11.  The slicer gets the bits of a square wave back: with a
    downsample factor [D] between 1 and 32 and an amplitude [A] between 1
    and 32767, samples that hold [A] for [D] samples for each bit 1 and
    [- A] for each bit 0 make the slicer, from its start, decide exactly
    those bits, in order, and leave the threshold at or above [- A] and
    strictly below [A]. *)
Theorem slicer_recovers_square_wave (D A : Z) (bits : list bool) :
  1 <= D <= 32 -> 1 <= A < 2 ^ 15 ->
  decided (slice D (slicer_start D) (modulate D A bits)) = bits /\
  - A <= threshold (slicer_after D (slicer_start D) (modulate D A bits)) < A.
Proof.
  intros HD HA.
  destruct (slice_modulate D A bits (slicer_start D) HD HA) as (E & Ht & _);
    [cbn [slicer_start threshold]; lia | reflexivity |].
  auto.
Qed.

Lemma slicer_recovers_square_wave_witness :
  (1 <= 2 <= 32 /\ 1 <= 6000 < 2 ^ 15) /\
  decided (slice 2 (slicer_start 2) (modulate 2 6000 [true; false; false; true]))
  = [true; false; false; true].
Proof.
  assert (H1 : 1 <= 2 <= 32) by lia.
  assert (H2 : 1 <= 6000 < 2 ^ 15) by lia.
  split; [auto|].
  exact (proj1 (slicer_recovers_square_wave 2 6000 [true; false; false; true] H1 H2)).
Defined.

(** X12.  The whole pipeline on a square wave: with [D] and [A] as above,
    the sample loop of [main], from the start of the program, on the
    samples of the bitstream of a packet of 0 to 254 bytes runs to the
    end and has printed that payload and nothing else. *)
Theorem pipeline_decodes_square_wave (v : bool) (D A : Z) (P : list Z) :
  1 <= D <= 32 -> 1 <= A < 2 ^ 15 -> Forall u8 P -> (length P <= 254)%nat ->
  exists sl' s',
    processSamples D (slicer_start D, initial v) (modulate D A (encode P))
    = Some (sl', s') /\
    packets (out s') = [P] /\ packetSync s' = false.
Proof.
  intros HD HA HP Hlen.
  destruct (slice_modulate D A (encode P) (slicer_start D) HD HA) as (E & _ & _);
    [cbn [slicer_start threshold]; lia | reflexivity |].
  destruct (run_encode (initial v) P) as (s' & Erun & Hl & _ & _ & _ & Hp);
    [reflexivity | reflexivity | apply length_replicate | exact HP
    | unfold MAX_PACKET_SIZE; lia |].
  eexists _, s'. rewrite processSamples_run, E, Erun. cbn [fmap option_fmap option_map].
  split; [reflexivity|]. auto.
Qed.

Lemma pipeline_decodes_square_wave_witness :
  (1 <= 32 <= 32 /\ 1 <= 6000 < 2 ^ 15 /\ Forall u8 [0x41; 0x42; 0x43] /\
   (length [0x41; 0x42; 0x43] <= 254)%nat) /\
  exists sl' s',
    processSamples 32 (slicer_start 32, initial false)
                   (modulate 32 6000 (encode [0x41; 0x42; 0x43]))
    = Some (sl', s') /\
    packets (out s') = [[0x41; 0x42; 0x43]] /\ packetSync s' = false.
Proof.
  assert (H1 : 1 <= 32 <= 32) by lia.
  assert (H2 : 1 <= 6000 < 2 ^ 15) by lia.
  assert (H3 : Forall u8 [0x41; 0x42; 0x43])
    by (repeat constructor; unfold u8; lia).
  assert (H4 : (length [0x41; 0x42; 0x43] <= 254)%nat) by (simpl; lia).
  split; [auto|].
  exact (pipeline_decodes_square_wave false 32 6000 [0x41; 0x42; 0x43] H1 H2 H3 H4).
Defined.

(** ** An inverted bitstream *)

Lemma inverted_byte b :
  u8 b -> negb <$> bits_of_byte b = bits_of_byte (255 - b).
Proof.
  intros Hb.
  destruct (pack_eight [negb (Z.testbit b 7); negb (Z.testbit b 6);
                        negb (Z.testbit b 5); negb (Z.testbit b 4);
                        negb (Z.testbit b 3); negb (Z.testbit b 2);
                        negb (Z.testbit b 1)]
                       (negb (Z.testbit b 0)) eq_refl) as (b' & Hb' & Ebits & _).
  assert (Eb : b' = 255 - b).
  { pose proof (byte_of_its_bits b Hb) as E1.
    pose proof (byte_of_its_bits b' Hb') as E2.
    unfold bits_of_byte in Ebits. cbn [app] in Ebits.
    assert (E7 : Z.testbit b' 7 = negb (Z.testbit b 7)) by congruence.
    assert (E6 : Z.testbit b' 6 = negb (Z.testbit b 6)) by congruence.
    assert (E5 : Z.testbit b' 5 = negb (Z.testbit b 5)) by congruence.
    assert (E4 : Z.testbit b' 4 = negb (Z.testbit b 4)) by congruence.
    assert (E3 : Z.testbit b' 3 = negb (Z.testbit b 3)) by congruence.
    assert (E2' : Z.testbit b' 2 = negb (Z.testbit b 2)) by congruence.
    assert (E1' : Z.testbit b' 1 = negb (Z.testbit b 1)) by congruence.
    assert (E0 : Z.testbit b' 0 = negb (Z.testbit b 0)) by congruence.
    rewrite E7, E6, E5, E4, E3, E2', E1', E0 in E2. clear Ebits.
    destruct (Z.testbit b 7), (Z.testbit b 6), (Z.testbit b 5), (Z.testbit b 4),
      (Z.testbit b 3), (Z.testbit b 2), (Z.testbit b 1), (Z.testbit b 0);
      cbn [negb Z.b2z] in *; lia. }
  rewrite <- Eb, Ebits. reflexivity.
Qed.

Lemma inverted_bytes bs :
  Forall u8 bs ->
  negb <$> bits_of_bytes bs = bits_of_bytes ((fun b => 255 - b) <$> bs).
Proof.
  induction 1 as [|b bs Hb _ IH]; [reflexivity|].
  cbn [fmap list_fmap]. rewrite !bits_of_bytes_cons, fmap_app, IH, inverted_byte by exact Hb.
  reflexivity.
Qed.

(** A Searching decoder on bits that give no match. *)
Lemma run_no_lock bits s :
  packetSync s = false -> first_lock (syncBuffer s) bits = None ->
  exists s', run s bits = Some s' /\ packetSync s' = false /\ out s' = out s.
Proof.
  revert s. induction bits as [|bit bits IH]; intros s Hs Hnone; [eauto|].
  cbn [first_lock] in Hnone.
  destruct (is_sync (sync_shift (syncBuffer s) bit)) eqn:Hhit; [discriminate|].
  destruct (first_lock _ bits) eqn:Hrest; [discriminate|].
  cbn [run]. rewrite searching_miss by assumption. cbn [mbind option_bind].
  destruct (IH (set_syncBuffer s (sync_shift (syncBuffer s) bit))) as (s' & E & Hl & Ho);
    [destruct s; exact Hs | destruct s; exact Hrest |].
  exists s'. split; [exact E|]. split; [exact Hl|]. rewrite Ho. destruct s; reflexivity.
Qed.

Lemma bits_of_bytes_app bs1 bs2 :
  bits_of_bytes (bs1 ++ bs2) = bits_of_bytes bs1 ++ bits_of_bytes bs2.
Proof. unfold bits_of_bytes. rewrite map_app, concat_app. reflexivity. Qed.

(** The register at a lock is what the bits have shifted into it. *)
Lemma run_lock_register bits s s' :
  packetSync s = false ->
  first_lock (syncBuffer s) bits = Some (length bits - 1)%nat ->
  run s bits = Some s' ->
  syncBuffer s' = fold_left sync_shift bits (syncBuffer s).
Proof.
  revert s. induction bits as [|bit bits IH]; intros s Hs Hfirst Hrun; [discriminate|].
  cbn [first_lock length run fold_left] in *.
  destruct (is_sync (sync_shift (syncBuffer s) bit)) eqn:Hsync.
  - destruct bits; [|discriminate].
    destruct (searching_hit s bit Hs Hsync) as (s1 & E & _ & _ & _ & Hsy & _).
    rewrite E in Hrun. cbn [mbind option_bind run] in Hrun.
    injection Hrun as <-. exact Hsy.
  - rewrite searching_miss in Hrun by assumption. cbn [mbind option_bind] in Hrun.
    destruct (first_lock _ bits) as [k|] eqn:Hk; [|discriminate].
    injection Hfirst as Hfirst.
    rewrite (IH (set_syncBuffer s (sync_shift (syncBuffer s) bit)));
      [destruct s; reflexivity | destruct s; exact Hs
      | destruct s; fields; rewrite Hk; f_equal; lia | exact Hrun].
Qed.

(** X13.  An inverted bitstream is locked onto and not decoded: the
    complement of the sync word gives the lock, but the bits that follow
    are taken as they come, so that from the start of the program the
    bitstream of a packet of up to 126 bytes with every bit inverted runs
    to its end with nothing printed. *)
Theorem inverted_packet_is_not_decoded (v : bool) (P : list Z) :
  Forall u8 P -> (length P <= 126)%nat ->
  (exists s1, run (initial v) (negb <$> sync_bits) = Some s1 /\
              packetSync s1 = true /\ syncBuffer s1 = 0xffff - SYNC_WORD) /\
  exists s', run (initial v) (negb <$> encode P) = Some s' /\
             packets (out s') = [].
Proof.
  intros HP Hlen.
  destruct (run_lock (negb <$> sync_bits) (initial v))
    as (s1 & E1 & Hl1 & Hk1 & Hr1 & Hsy1 & _ & Hb1 & Hp1); [reflexivity..|].
  assert (Hreg : syncBuffer s1 = 0xffff - SYNC_WORD)
    by (rewrite (run_lock_register (negb <$> sync_bits) (initial v) s1);
        [reflexivity | reflexivity | reflexivity | exact E1]).
  split; [exists s1; auto|].
  assert (Hfresh : fresh_lock s1)
    by (unfold fresh_lock; rewrite Hb1; repeat split; try apply Hr1; auto).
  destruct (crc_bytes_sent P) as (h & l & Ecrc & Hh & Hl & _).
  assert (Hn : u8 (Z.of_nat (length P))) by (unfold u8; lia).
  assert (Hn' : u8 (255 - Z.of_nat (length P))) by (unfold u8; lia).
  unfold encode, frame_bits. rewrite fmap_app, run_app, E1, Ecrc.
  cbn [mbind option_bind].
  assert (HnP : Forall u8 (Z.of_nat (length P) :: P)) by (constructor; assumption).
  assert (Hhl : Forall u8 [h; l])
    by (constructor; [assumption | constructor; [assumption | constructor]]).
  rewrite fmap_app, (inverted_bytes _ HnP), (inverted_bytes _ Hhl).
  rewrite fmap_cons, bits_of_bytes_cons, <- app_assoc, run_app.
  rewrite run_byte by (apply Hfresh || exact Hn').
  destruct P as [|p P].
  - destruct (feed_length_any s1 255 Hfresh Hn')
      as (s2 & E2 & Hl2 & _ & _ & Hp2 & Hsy2 & _).
    change (255 - Z.of_nat (length (@nil Z))) with 255. rewrite E2.
    cbn [mbind option_bind]. change (bits_of_bytes (_ <$> [])) with (@nil bool).
    cbn [app].
    destruct (run_no_lock (bits_of_bytes ((fun b => 255 - b) <$> [h; l])) s2 Hl2)
      as (s3 & E3 & _ & Ho3).
    + rewrite Hsy2, Hreg. vm_compute in Ecrc. injection Ecrc as <- <-. reflexivity.
    + exists s3. split; [exact E3|]. rewrite Ho3, Hp2, Hp1. reflexivity.
  - destruct (feed_length s1 (255 - Z.of_nat (length (p :: P))) Hfresh Hn')
      as (s2 & E2 & Hin2 & _ & Hp2); [unfold MAX_PACKET_SIZE; cbn [length]; lia|].
    rewrite E2. cbn [mbind option_bind]. rewrite <- bits_of_bytes_app.
    destruct (run_data (((fun b => 255 - b) <$> (p :: P))
                        ++ ((fun b => 255 - b) <$> [h; l]))
                       s2 _ [] Hin2) as (s3 & E3 & _ & _ & Hp3).
    + rewrite length_app, !length_fmap. cbn [length] in *. lia.
    + unfold MAX_PACKET_SIZE. cbn [length] in *. lia.
    + apply Forall_app. split; apply Forall_fmap.
      * eapply Forall_impl; [exact HP|]. unfold u8. cbn. intros; lia.
      * unfold u8 in *. repeat constructor; cbn; lia.
    + exists s3. split; [exact E3|]. rewrite Hp3, Hp2, Hp1. reflexivity.
Qed.

Lemma inverted_packet_is_not_decoded_witness :
  (Forall u8 [0x41; 0x42; 0x43] /\ (length [0x41; 0x42; 0x43] <= 126)%nat) /\
  exists s', run (initial false) (negb <$> encode [0x41; 0x42; 0x43]) = Some s' /\
             packets (out s') = [].
Proof.
  assert (H : Forall u8 [0x41; 0x42; 0x43])
    by (repeat constructor; unfold u8; lia).
  assert (L : (length [0x41; 0x42; 0x43] <= 126)%nat) by (simpl; lia).
  split; [auto|].
  exact (proj2 (inverted_packet_is_not_decoded false [0x41; 0x42; 0x43] H L)).
Defined.

(** ** A bitstream that stops early *)

Lemma processByte_out_grows s b s' k :
  processByte s b = Some (s', k) -> exists more, out s' = out s ++ more.
Proof.
  unfold processByte, buffer_store, buffer_prefix.
  destruct s as [v sy by_ buf ps le off cc rc sk ou]; fields.
  repeat match goal with
         | |- context [if ?c then _ else _] => destruct c
         end;
    cbn [mbind option_bind]; intros [= <- <-]; fields;
    first [exists []; rewrite app_nil_r; reflexivity | eexists; reflexivity].
Qed.

Lemma processBit_out_grows s bit s' :
  processBit s bit = Some s' -> exists more, out s' = out s ++ more.
Proof.
  destruct (packetSync s) eqn:Hl.
  - destruct (Z.lt_ge_cases 1 (skipBit s)) as [Hk|Hk].
    + rewrite processBit_within by assumption. intros [= <-].
      exists []. rewrite app_nil_r. destruct s; reflexivity.
    + rewrite processBit_eighth by (assumption || lia). unfold feedByte.
      destruct (processByte _ _) as [[s1 k]|] eqn:E; [|discriminate].
      cbn [mbind option_bind]. intros [= <-].
      destruct (processByte_out_grows _ _ _ _ E) as (more & Hm).
      exists more. destruct s, s1; exact Hm.
  - destruct (is_sync (sync_shift (syncBuffer s) bit)) eqn:Hhit.
    + unfold processBit, is_sync, sync_shift in *.
      destruct s as [v sy by_ buf ps le off cc rc sk ou]; fields. subst ps.
      rewrite Hhit. destruct v; intros [= <-]; fields;
        first [exists []; rewrite app_nil_r; reflexivity | eexists; reflexivity].
    + rewrite searching_miss by assumption. intros [= <-].
      exists []. rewrite app_nil_r. destruct s; reflexivity.
Qed.

Lemma run_out_grows bits s s' :
  run s bits = Some s' -> exists more, out s' = out s ++ more.
Proof.
  revert s. induction bits as [|bit bits IH]; intros s.
  - intros [= <-]. exists []. rewrite app_nil_r. reflexivity.
  - cbn [run]. destruct (processBit s bit) as [s1|] eqn:E1; [|discriminate].
    cbn [mbind option_bind]. intros E2.
    destruct (processBit_out_grows _ _ _ E1) as (m1 & H1).
    destruct (IH _ E2) as (m2 & H2).
    exists (m1 ++ m2). rewrite H2, H1, app_assoc. reflexivity.
Qed.

(** All of the bitstream of a packet but its last bit. *)
Lemma run_all_but_last v P front t0 :
  Forall u8 P -> (length P <= 254)%nat ->
  encode P = front ++ [t0] ->
  exists s, run (initial v) front = Some s /\ packets (out s) = [].
Proof.
  intros HP Hlen Eenc.
  destruct (crc_bytes_sent P) as (h & l & Ecrc & Hh & Hl & _).
  assert (Efront : front
            = sync_bits ++ bits_of_bytes (Z.of_nat (length P) :: P ++ [h])
              ++ [Z.testbit l 7; Z.testbit l 6; Z.testbit l 5; Z.testbit l 4;
                  Z.testbit l 3; Z.testbit l 2; Z.testbit l 1]).
  { assert (E : encode P
               = (sync_bits ++ bits_of_bytes (Z.of_nat (length P) :: P ++ [h])
                  ++ [Z.testbit l 7; Z.testbit l 6; Z.testbit l 5; Z.testbit l 4;
                      Z.testbit l 3; Z.testbit l 2; Z.testbit l 1])
                 ++ [Z.testbit l 0]).
    { unfold encode, frame_bits. rewrite Ecrc.
      change (Z.of_nat (length P) :: P ++ [h])
        with ((Z.of_nat (length P) :: P) ++ [h]).
      rewrite bits_of_bytes_snoc, !bits_of_bytes_cons, <- !app_assoc.
      reflexivity. }
    rewrite E in Eenc. apply app_inj_tail in Eenc as [Eenc _].
    symmetry. exact Eenc. }
  subst front.
  destruct (run_lock sync_bits (initial v))
    as (s1 & E1 & Hl1 & Hk1 & Hr1 & _ & _ & Hb1 & Hp1); [reflexivity..|].
  assert (Hfresh : fresh_lock s1)
    by (unfold fresh_lock; rewrite Hb1; repeat split; try apply Hr1; auto).
  assert (Hn : u8 (Z.of_nat (length P))) by (unfold u8; lia).
  destruct (feed_length s1 _ Hfresh Hn) as (s2 & E2 & Hin2 & _ & Hp2);
    [unfold MAX_PACKET_SIZE; lia|].
  destruct (run_data P s2 _ [] Hin2) as (s3 & E3 & Hin3 & _ & Hp3);
    [cbn [length]; lia | unfold MAX_PACKET_SIZE; lia | exact HP |].
  cbn [app] in Hin3.
  destruct (feed_crc_hi s3 _ P h Hin3 eq_refl Hh) as (s4 & E4 & Hw4 & _ & Hp4).
  rewrite run_app, E1. cbn [mbind option_bind].
  change (Z.of_nat (length P) :: P ++ [h]) with ((Z.of_nat (length P) :: P) ++ [h]).
  rewrite bits_of_bytes_snoc, bits_of_bytes_cons, <- !app_assoc.
  rewrite run_app, run_byte, E2 by (apply Hfresh || exact Hn).
  cbn [mbind option_bind]. rewrite run_app, E3. cbn [mbind option_bind].
  rewrite run_app, run_byte, E4 by (apply Hin3 || exact Hh).
  cbn [mbind option_bind].
  rewrite run_within by (first [apply Hw4 | destruct Hw4 as (_ & -> & _); cbn [length]; lia]).
  eexists. split; [reflexivity|].
  destruct s4; fields. rewrite Hp4, Hp3, Hp2, Hp1. reflexivity.
Qed.

(** X14.  Nothing is printed before the last bit of a packet is in: from
    the start of the program, on the bitstream of a packet of 0 to 254
    bytes cut after any number of bits short of all of them, the decoder
    runs to the end and has printed nothing. *)
Theorem truncated_packet_prints_nothing (v : bool) (P : list Z) (k : nat) :
  Forall u8 P -> (length P <= 254)%nat -> (k < length (encode P))%nat ->
  exists s, run (initial v) (take k (encode P)) = Some s /\ packets (out s) = [].
Proof.
  intros HP Hlen Hk.
  destruct (exists_last (l := encode P)) as (front & t0 & Eenc);
    [intros E; rewrite E in Hk; cbn in Hk; lia|].
  destruct (run_all_but_last v P front t0 HP Hlen Eenc) as (sf & Ef & Hpf).
  assert (Hkf : (k <= length front)%nat)
    by (rewrite Eenc, length_app in Hk; cbn [length] in Hk; lia).
  rewrite Eenc, take_app_le by exact Hkf.
  rewrite <- (take_drop k front), run_app in Ef.
  destruct (run (initial v) (take k front)) as [sk|] eqn:Ek; [|discriminate].
  cbn [mbind option_bind] in Ef.
  exists sk. split; [reflexivity|].
  destruct (run_out_grows _ _ _ Ef) as (more & Hm).
  rewrite Hm, packets_app in Hpf.
  destruct (packets (out sk)); [reflexivity | discriminate].
Qed.

Lemma truncated_packet_prints_nothing_witness :
  (Forall u8 [0x41; 0x42; 0x43] /\ (length [0x41; 0x42; 0x43] <= 254)%nat /\
   (63 < length (encode [0x41; 0x42; 0x43]%Z))%nat) /\
  exists s, run (initial false) (take 63 (encode [0x41; 0x42; 0x43])) = Some s /\
            packets (out s) = [].
Proof.
  assert (H : Forall u8 [0x41; 0x42; 0x43])
    by (repeat constructor; unfold u8; lia).
  assert (L : (length [0x41; 0x42; 0x43] <= 254)%nat) by (simpl; lia).
  assert (K : (63 < length (encode [0x41; 0x42; 0x43]%Z))%nat)
    by (vm_compute; lia).
  split; [auto|].
  exact (truncated_packet_prints_nothing false [0x41; 0x42; 0x43] 63 H L K).
Defined.

(** * Further properties of the CRC16 *)

Lemma crc_round_bits c :
  crc_round c = to_u16 (Z.lxor (Z.shiftl c 1) (if Z.testbit c 15 then 0x1021 else 0)).
Proof.
  unfold crc_round. rewrite land_high_bit.
  destruct (Z.testbit c 15); cbn [negb Z.eqb]; [reflexivity|].
  rewrite Z.lxor_0_r. reflexivity.
Qed.

Lemma crc_round_xor a b :
  crc_round (Z.lxor a b) = Z.lxor (crc_round a) (crc_round b).
Proof.
  rewrite !crc_round_bits, Z.lxor_spec, Z.shiftl_lxor.
  apply Z.bits_inj'. intros n Hn.
  rewrite Z.lxor_spec, !to_u16_bits, !Z.lxor_spec.
  destruct (Z.testbit a 15), (Z.testbit b 15); cbn [xorb];
    rewrite ?Z.bits_0;
    destruct (n <? 16), (Z.testbit (Z.shiftl a 1) n), (Z.testbit (Z.shiftl b 1) n),
      (Z.testbit 0x1021 n); reflexivity.
Qed.

Lemma crc_loop_xor k a b :
  crc_loop k (Z.lxor a b) = Z.lxor (crc_loop k a) (crc_loop k b).
Proof.
  revert a b. induction k as [|k IH]; intros a b; [reflexivity|].
  cbn [crc_loop]. rewrite crc_round_xor. apply IH.
Qed.

Lemma crc_update_linear c1 c2 b1 b2 :
  crc_xmodem_update (Z.lxor c1 c2) (Z.lxor b1 b2)
  = Z.lxor (crc_xmodem_update c1 b1) (crc_xmodem_update c2 b2).
Proof.
  unfold crc_xmodem_update. rewrite <- crc_loop_xor. f_equal.
  rewrite Z.shiftl_lxor.
  apply Z.bits_inj'. intros n Hn.
  rewrite Z.lxor_spec, !to_u16_bits, !Z.lxor_spec.
  destruct (n <? 16), (Z.testbit c1 n), (Z.testbit c2 n),
    (Z.testbit (Z.shiftl b1 8) n), (Z.testbit (Z.shiftl b2 8) n); reflexivity.
Qed.

(** X15.  The CRC16 update is linear for exclusive or: the update of the
    exclusive or of two running values by the exclusive or of two bytes
    is the exclusive or of the two updates. *)
Theorem crc_update_xor (c1 c2 b1 b2 : Z) :
  crc_xmodem_update (Z.lxor c1 c2) (Z.lxor b1 b2)
  = Z.lxor (crc_xmodem_update c1 b1) (crc_xmodem_update c2 b2).
Proof. apply crc_update_linear. Qed.

Lemma lxor_bytes h l : u8 l -> Z.lxor (Z.shiftl h 8) l = 256 * h + l.
Proof.
  intros Hl. rewrite <- (lor_bytes h l Hl). apply Z.lxor_lor.
  apply Z.bits_inj'. intros n Hn. rewrite Z.land_spec, Z.bits_0.
  destruct (Z.lt_ge_cases n 8).
  - rewrite Z.shiftl_spec_low by lia. reflexivity.
  - rewrite <- (Z.mod_small l (2 ^ 8)) by exact Hl.
    rewrite Z.mod_pow2_bits_high by lia. apply andb_false_r.
Qed.

Lemma crc_round_small x : 0 <= x < 2 ^ 15 -> crc_round x = 2 * x.
Proof.
  intros Hx. rewrite crc_round_bits, high_bit_u16 by lia.
  destruct (Z.leb_spec (2 ^ 15) x); [lia|].
  rewrite Z.lxor_0_r, Z.shiftl_mul_pow2 by lia.
  rewrite to_u16_small; lia.
Qed.

Lemma crc_loop_small k x :
  0 <= x -> x * 2 ^ Z.of_nat k < 2 ^ 16 -> crc_loop k x = x * 2 ^ Z.of_nat k.
Proof.
  revert x. induction k as [|k IH]; intros x Hx Hk.
  - cbn [crc_loop]. change (2 ^ Z.of_nat 0) with 1. lia.
  - rewrite Nat2Z.inj_succ, Z.pow_succ_r in * by lia.
    cbn [crc_loop]. rewrite crc_round_small by nia.
    rewrite IH by nia. ring.
Qed.

(** The running CRC over a message and the two bytes of its CRC is 0. *)
Lemma crc_residue_zero c :
  0 <= c < 2 ^ 16 ->
  crc_xmodem_update (crc_xmodem_update c (c / 2 ^ 8)) (c mod 2 ^ 8) = 0.
Proof.
  intros Hc.
  pose proof (Z.mod_pos_bound c (2 ^ 8) ltac:(lia)) as Hlo.
  assert (E1 : crc_xmodem_update c (c / 2 ^ 8) = (c mod 2 ^ 8) * 2 ^ 8).
  { unfold crc_xmodem_update.
    replace (Z.lxor c (Z.shiftl (c / 2 ^ 8) 8)) with (c mod 2 ^ 8).
    - rewrite to_u16_small by lia. apply (crc_loop_small 8); lia.
    - rewrite (Z.div_mod c (2 ^ 8)) at 2 by lia.
      change (2 ^ 8) with 256 at 2.
      rewrite <- (lxor_bytes (c / 2 ^ 8) (c mod 2 ^ 8)) by exact Hlo.
      rewrite Z.lxor_comm, <- Z.lxor_assoc, Z.lxor_nilpotent, Z.lxor_0_l.
      reflexivity. }
  rewrite E1. unfold crc_xmodem_update.
  rewrite Z.shiftl_mul_pow2, Z.lxor_nilpotent by lia. reflexivity.
Qed.

Lemma u8_forall (f : Z -> bool) :
  forallb f (map Z.of_nat (seq 0 256)) = true -> forall b, u8 b -> f b = true.
Proof.
  intros H b Hb. rewrite forallb_forall in H. apply H.
  rewrite <- (Z2Nat.id b) by (unfold u8 in Hb; lia).
  apply in_map, in_seq. unfold u8 in Hb. lia.
Qed.

Lemma complement_byte b : u8 b -> 255 - b = Z.lxor b 255.
Proof.
  intros Hb. symmetry. apply Z.eqb_eq.
  apply (u8_forall (fun b => Z.lxor b 255 =? 255 - b)); [vm_compute; reflexivity|exact Hb].
Qed.

(** X16.  The running CRC over a whole frame as it is sent (the length
    byte, the payload and the two bytes of the complemented CRC) is the
    seed 0x1D0F, whatever the payload. *)
Theorem frame_crc_is_seed (P : list Z) :
  crc_of (Z.of_nat (length P) :: P ++ crc_bytes P) = CRC_START.
Proof.
  unfold crc_of.
  change (Z.of_nat (length P) :: P ++ crc_bytes P)
    with ((Z.of_nat (length P) :: P) ++ crc_bytes P).
  rewrite fold_left_app. fold (crc_of (Z.of_nat (length P) :: P)).
  unfold crc_bytes.
  set (c := crc_of (Z.of_nat (length P) :: P)).
  assert (Hc : 0 <= c < 2 ^ 16) by (apply crc_fold_range; unfold CRC_START; lia).
  cbn [fold_left].
  rewrite Z.shiftr_div_pow2 by lia.
  change 0xFF with (Z.ones 8). rewrite Z.land_ones by lia.
  assert (Hhi : u8 (c / 2 ^ 8))
    by (unfold u8; split; [apply Z.div_pos | apply Z.div_lt_upper_bound]; lia).
  assert (Hlo : u8 (c mod 2 ^ 8)) by (apply Z.mod_pos_bound; lia).
  replace ((0xFFFF - c) / 2 ^ 8) with (Z.lxor (c / 2 ^ 8) 255)
    by (rewrite <- complement_byte by exact Hhi; unfold u8 in *;
        Z.div_mod_to_equations; lia).
  replace ((0xFFFF - c) mod 2 ^ 8) with (Z.lxor (c mod 2 ^ 8) 255)
    by (rewrite <- complement_byte by exact Hlo; unfold u8 in *;
        Z.div_mod_to_equations; lia).
  rewrite <- (Z.lxor_0_r c) at 1.
  rewrite !crc_update_linear, crc_residue_zero by exact Hc.
  reflexivity.
Qed.
